(** * kalkulator.py: the safe evaluator and the input buffer of the calculator

    A shallow embedding of [src/kalkulator.py] and the properties of its
    expression buffer and of its restricted evaluator.

    Python text is a sequence of code points, so [str] is a list of code
    points and indexing, slicing and [len] count code points (the display
    glyphs of multiplication and division are single characters, as in
    Python).  Python integers are unbounded ([Z]) and Python floats are
    IEEE-754 binary64 values, taken from the Standard Library's
    [SpecFloat]; the arithmetic of the [operator] module is written out
    on them after CPython (versions 3.8 to 3.10, where [ast.Num] is an
    alias that recognises number constants and [str] of an [int] has no
    length limit).

    The parts of the Python runtime that the program calls and that cannot
    be written down here (the parser behind [ast.parse], the C library's
    [pow], complex arithmetic, the texts of floats and complex numbers,
    the Unicode digit table) are the fields of the record [Runtime]; every
    theorem holds for all of them.  [Example.runtime] is an instance with
    a parser for the texts the calculator can type and with the shortest
    round-trip text of floats; it serves the examples.  The interpreter's
    recursion limit is not modelled.

    The window is its state (the buffer, the text of the display and the
    timers registered with [after]) and what can happen to it: a button of
    [btn_specs] is pressed, a handler of [_bind_keys] is called with an
    event, or a timer comes due.  Which handlers Tk calls for a key is not
    modelled; a session is any sequence of such calls. *)

From Stdlib Require Import ZArith NArith List Bool Lia String Ascii.
From Stdlib Require Import Floats.SpecFloat.
Import ListNotations.

Local Open Scope N_scope.

(** ** Python text *)

Module Text.

Definition char := N.
Definition str := list char.

(** UTF-8 decoding of a literal of the development into code points. *)
Fixpoint decode (fuel : nat) (bs : list N) : str :=
  match fuel with
  | O => []
  | S fuel' =>
      match bs with
      | [] => []
      | b :: rest =>
          if b <? 128 then b :: decode fuel' rest
          else if b <? 224 then
            match rest with
            | b1 :: rest' => ((b - 192) * 64 + (b1 - 128)) :: decode fuel' rest'
            | _ => []
            end
          else if b <? 240 then
            match rest with
            | b1 :: b2 :: rest' =>
                ((b - 224) * 4096 + (b1 - 128) * 64 + (b2 - 128)) :: decode fuel' rest'
            | _ => []
            end
          else
            match rest with
            | b1 :: b2 :: b3 :: rest' =>
                ((b - 240) * 262144 + (b1 - 128) * 4096 + (b2 - 128) * 64 + (b3 - 128))
                  :: decode fuel' rest'
            | _ => []
            end
      end
  end.

Definition u (lit : string) : str :=
  let bs := map N_of_ascii (list_ascii_of_string lit) in
  decode (List.length bs) bs.

Definition str_eqb (a b : str) : bool :=
  if list_eq_dec N.eq_dec a b then true else false.

(** [a.startswith(b)] *)
Fixpoint startswith (a b : str) : bool :=
  match b, a with
  | [], _ => true
  | _ :: _, [] => false
  | y :: b', x :: a' => (x =? y) && startswith a' b'
  end.

(** [needle in hay] on text: substring search. *)
Fixpoint contains (hay needle : str) : bool :=
  startswith hay needle ||
  match hay with
  | [] => false
  | _ :: hay' => contains hay' needle
  end.

(** [s[-1]]; only read where [s] is not empty. *)
Definition last_char (s : str) : char := List.last s 0.

(** [s[:-1]] *)
Definition drop_last (s : str) : str := List.removelast s.

(** [s[-n:]] *)
Definition tail_slice (n : nat) (s : str) : str :=
  List.skipn (List.length s - n) s.

(** [s.replace(old, new)] for a one-character [old]. *)
Fixpoint replace (s : str) (old : char) (new : str) : str :=
  match s with
  | [] => []
  | c :: s' => (if c =? old then new else [c]) ++ replace s' old new
  end.

End Text.
Import Text.

(** ** Python floats: IEEE-754 binary64 *)

Module PyFloat.
Local Open Scope Z_scope.

Definition float := spec_float.
Definition prec : Z := 53.
Definition emax : Z := 1024.

Definition fadd : float -> float -> float := SFadd prec emax.
Definition fsub : float -> float -> float := SFsub prec emax.
Definition fmul : float -> float -> float := SFmul prec emax.
Definition fdiv : float -> float -> float := SFdiv prec emax.
Definition fneg : float -> float := SFopp.
Definition fabs : float -> float := SFabs.
Definition feqb : float -> float -> bool := SFeqb.
Definition fltb : float -> float -> bool := SFltb.

Definition zero : float := S754_zero false.
Definition one : float := S754_finite false 4503599627370496 (-52).
Definition two : float := S754_finite false 4503599627370496 (-51).
Definition half : float := S754_finite false 4503599627370496 (-53).
Definition hundred : float := S754_finite false 7036874417766400 (-46).

Definition is_nan (f : float) : bool :=
  match f with S754_nan => true | _ => false end.
Definition is_inf (f : float) : bool :=
  match f with S754_infinity _ => true | _ => false end.
Definition is_zero (f : float) : bool :=
  match f with S754_zero _ => true | _ => false end.

(** The sign bit, [None] for a NaN. *)
Definition sign_bit (f : float) : option bool :=
  match f with
  | S754_zero s | S754_infinity s | S754_finite s _ _ => Some s
  | S754_nan => None
  end.

(** C's [copysign(0.0, y)] where [y] is not a NaN. *)
Definition zero_with_sign_of (y : float) : float :=
  match sign_bit y with Some s => S754_zero s | None => S754_nan end.

(** The nearest float to the integer [z], ties to even; an infinity when
    [z] is out of range. *)
Definition round_Z (z : Z) : float := binary_normalize prec emax z 0 false.

(** The nearest float to the positive rational [p / q], ties to even: the
    quotient is computed with at least 63 significant bits and the
    remainder gives the position of the exact value between two
    mantissas. *)
Definition round_ratio (p q : positive) : float :=
  let k := Z.max 0 (64 + Z.log2 (Zpos q) - Z.log2 (Zpos p)) in
  let '(d, r) := Z.div_eucl (Zpos p * 2 ^ k) (Zpos q) in
  binary_round_aux prec emax false d (- k) (new_location (Zpos q) r).

(** The nearest float to [n / d] for integers [n] and [d <> 0]; a zero
    quotient takes the sign of the divisor, as in CPython's true division
    of integers. *)
Definition round_quotient (n d : Z) : float :=
  match n, d with
  | _, Z0 => S754_nan
  | Z0, Zpos _ => S754_zero false
  | Z0, Zneg _ => S754_zero true
  | Zpos p, Zpos q => round_ratio p q
  | Zneg p, Zneg q => round_ratio p q
  | Zpos p, Zneg q => fneg (round_ratio p q)
  | Zneg p, Zpos q => fneg (round_ratio p q)
  end.

(** The nearest float to [m * 10 ^ e], what [float()] computes from a
    decimal text. *)
Definition round_decimal (m : N) (e : Z) : float :=
  if 0 <=? e then round_Z (Z.of_N m * 10 ^ e)
  else round_quotient (Z.of_N m) (10 ^ (- e)).

(** [float.is_integer] *)
Definition is_integer (f : float) : bool :=
  match f with
  | S754_zero _ => true
  | S754_finite _ m e => (0 <=? e) || (Zpos m mod 2 ^ (- e) =? 0)
  | _ => false
  end.

(** [int(f)] for a finite [f]: truncation towards zero. *)
Definition trunc (f : float) : Z :=
  match f with
  | S754_finite s m e =>
      cond_Zopp s (if 0 <=? e then Zpos m * 2 ^ e else Zpos m / 2 ^ (- e))
  | _ => 0
  end.

(** C's [floor] *)
Definition floor (f : float) : float :=
  match f with
  | S754_finite s m e =>
      if 0 <=? e then f
      else
        let q := Zpos m / 2 ^ (- e) in
        let exact := Zpos m mod 2 ^ (- e) =? 0 in
        let n := if s then (if exact then - q else - q - 1) else q in
        if n =? 0 then S754_zero s else round_Z n
  | _ => f
  end.

(** C's [fmod]: the exact remainder of the truncated division, with the
    sign of the dividend. *)
Definition fmod (x y : float) : float :=
  match x, y with
  | S754_nan, _ | _, S754_nan => S754_nan
  | S754_infinity _, _ => S754_nan
  | _, S754_zero _ => S754_nan
  | _, S754_infinity _ => x
  | S754_zero _, _ => x
  | S754_finite sx mx ex, S754_finite _ my ey =>
      let e := Z.min ex ey in
      let r := (Zpos mx * 2 ^ (ex - e)) mod (Zpos my * 2 ^ (ey - e)) in
      match r with
      | Zpos p => binary_round prec emax sx p e
      | _ => S754_zero sx
      end
  end.

(** CPython's [DOUBLE_IS_ODD_INTEGER] *)
Definition is_odd_integer (x : float) : bool :=
  feqb (fmod (fabs x) two) one.

End PyFloat.
Import PyFloat.

(** ** Python values, exceptions and the syntax tree of [ast] *)

Definition complex : Type := float * float.

Inductive value :=
| VBool (b : bool)
| VInt (z : Z)
| VFloat (f : float)
| VComplex (c : complex).

Inductive exn :=
| SyntaxError
| ValueError (msg : string)
| ZeroDivisionError
| OverflowError
| TypeError
| OtherError (name : string).

Inductive result (A : Type) :=
| Ok (a : A)
| Raise (e : exn).
Arguments Ok {A} a.
Arguments Raise {A} e.

Definition bind {A B : Type} (r : result A) (k : A -> result B) : result B :=
  match r with
  | Ok a => k a
  | Raise e => Raise e
  end.

Notation "x <- r ;; k" := (bind r (fun x => k))
  (at level 61, r at next level, right associativity).

(** The value of an [ast.Constant] node. *)
Inductive constant :=
| KInt (z : Z)
| KFloat (f : float)
| KComplex (c : complex)
| KBool (b : bool)
| KStr (s : str)
| KBytes (b : list N)
| KNone
| KEllipsis.

(** The classes of [ast.operator] and [ast.unaryop]. *)
Inductive operator :=
| Add | Sub | Mult | MatMult | Div | Mod | Pow
| LShift | RShift | BitOr | BitXor | BitAnd | FloorDiv.

Inductive unaryop := Invert | Not | UAdd | USub.

Inductive opclass :=
| BinClass (o : operator)
| UnClass (o : unaryop).

(** The expression nodes of [ast].  [Other] stands for every node class
    the evaluator has no branch for (comparison, boolean operation,
    attribute, subscript, lambda, ...). *)
#[warnings="-register-all"] Inductive node :=
| Expression (body : node)
| Constant (k : constant)
| BinOp (left : node) (op : operator) (right : node)
| UnaryOp (op : unaryop) (operand : node)
| Call (func : node) (args : list node)
| Name (id : str)
| Other (class_name : string).

(** What a complex operation of the runtime hands back: a value, or the
    C-level error that CPython turns into an exception. *)
Inductive cresult :=
| COk (c : complex)
| CEDOM
| CERANGE.

(** ** The Python runtime outside the repository *)

Record Runtime := {
  (** [ast.parse(text, mode='eval')] *)
  ast_parse : str -> result node;
  (** [str.isdigit] on a character outside ASCII *)
  unicode_isdigit : char -> bool;
  (** the value of a decimal digit outside ASCII, as [float()] reads it *)
  unicode_decimal : char -> option N;
  (** the C library's [pow] on a positive finite base other than 1 and a
      finite non-zero exponent *)
  libm_pow : float -> float -> float;
  (** complex [+ - * / **] *)
  complex_binop : operator -> complex -> complex -> cresult;
  (** [repr] of a finite non-zero float *)
  float_repr_finite : bool -> positive -> Z -> str;
  (** [repr] of a complex number *)
  complex_repr : complex -> str
}.

(** ** Python's arithmetic on these values *)

Module PyNum.
Local Open Scope Z_scope.

(** [PyLong_AsDouble] *)
Definition int_to_float (z : Z) : result float :=
  let f := round_Z z in
  if is_inf f then Raise OverflowError else Ok f.

Inductive operands :=
| IntInt (a b : Z)
| FloatFloat (a b : float)
| ComplexComplex (a b : complex).

Definition to_float (v : value) : result float :=
  match v with
  | VBool b => int_to_float (Z.b2z b)
  | VInt z => int_to_float z
  | VFloat f => Ok f
  | VComplex _ => Raise TypeError
  end.

Definition to_complex (v : value) : result complex :=
  match v with
  | VComplex c => Ok c
  | _ => f <- to_float v ;; Ok (f, zero)
  end.

(** The common type two operands are brought to: complex if either is
    complex, else float if either is a float, else int ([bool] is an
    [int]). *)
Definition coerce (l r : value) : result operands :=
  match l, r with
  | VComplex _, _ | _, VComplex _ =>
      a <- to_complex l ;; b <- to_complex r ;; Ok (ComplexComplex a b)
  | VFloat _, _ | _, VFloat _ =>
      a <- to_float l ;; b <- to_float r ;; Ok (FloatFloat a b)
  | VBool a, VBool b => Ok (IntInt (Z.b2z a) (Z.b2z b))
  | VBool a, VInt b => Ok (IntInt (Z.b2z a) b)
  | VInt a, VBool b => Ok (IntInt a (Z.b2z b))
  | VInt a, VInt b => Ok (IntInt a b)
  end.

Section WithRuntime.
Variable rt : Runtime.

Definition complex_op (op : operator) (a b : complex) : result value :=
  match complex_binop rt op a b with
  | COk c => Ok (VComplex c)
  | CEDOM => Raise ZeroDivisionError
  | CERANGE => Raise OverflowError
  end.

(** [float_pow] of CPython's floatobject.c *)
Definition float_pow (iv iw : float) : result value :=
  if is_zero iw then Ok (VFloat one)
  else if is_nan iv then Ok (VFloat iv)
  else if is_nan iw then Ok (VFloat (if feqb iv one then one else iw))
  else if is_inf iw then
    let av := fabs iv in
    if feqb av one then Ok (VFloat one)
    else if Bool.eqb (fltb zero iw) (fltb one av) then Ok (VFloat (fabs iw))
    else Ok (VFloat zero)
  else if is_inf iv then
    let odd := is_odd_integer iw in
    if fltb zero iw then Ok (VFloat (if odd then iv else fabs iv))
    else Ok (VFloat (if odd then zero_with_sign_of iv else zero))
  else if is_zero iv then
    if fltb iw zero then Raise ZeroDivisionError
    else Ok (VFloat (if is_odd_integer iw then iv else zero))
  else if fltb iv zero && negb (feqb iw (floor iw)) then
    complex_op Pow (iv, zero) (iw, zero)
  else
    let negate_result := fltb iv zero && is_odd_integer iw in
    let av := fabs iv in
    if feqb av one then Ok (VFloat (if negate_result then fneg one else one))
    else
      let ix := libm_pow rt av iw in
      if is_inf ix then Raise OverflowError
      else Ok (VFloat (if negate_result then fneg ix else ix)).

(** [float_rem] *)
Definition float_rem (vx wx : float) : result value :=
  if is_zero wx then Raise ZeroDivisionError
  else
    let md := fmod vx wx in
    if is_zero md then Ok (VFloat (zero_with_sign_of wx))
    else if negb (Bool.eqb (fltb wx zero) (fltb md zero))
    then Ok (VFloat (fadd md wx))
    else Ok (VFloat md).

(** [float_floor_div], through [float_divmod] *)
Definition float_floor_div (vx wx : float) : result value :=
  if is_zero wx then Raise ZeroDivisionError
  else
    let md := fmod vx wx in
    let dv := fdiv (fsub vx md) wx in
    let dv :=
      if negb (is_zero md) && negb (Bool.eqb (fltb wx zero) (fltb md zero))
      then fsub dv one else dv in
    if is_zero dv then Ok (VFloat (zero_with_sign_of (fdiv vx wx)))
    else
      let fl := floor dv in
      Ok (VFloat (if fltb half (fsub dv fl) then fadd fl one else fl)).

Definition py_add (l r : value) : result value :=
  ops <- coerce l r ;;
  match ops with
  | IntInt a b => Ok (VInt (a + b))
  | FloatFloat a b => Ok (VFloat (fadd a b))
  | ComplexComplex a b => complex_op Add a b
  end.

Definition py_sub (l r : value) : result value :=
  ops <- coerce l r ;;
  match ops with
  | IntInt a b => Ok (VInt (a - b))
  | FloatFloat a b => Ok (VFloat (fsub a b))
  | ComplexComplex a b => complex_op Sub a b
  end.

Definition py_mul (l r : value) : result value :=
  ops <- coerce l r ;;
  match ops with
  | IntInt a b => Ok (VInt (a * b))
  | FloatFloat a b => Ok (VFloat (fmul a b))
  | ComplexComplex a b => complex_op Mult a b
  end.

Definition py_truediv (l r : value) : result value :=
  ops <- coerce l r ;;
  match ops with
  | IntInt a b =>
      if b =? 0 then Raise ZeroDivisionError
      else
        let q := round_quotient a b in
        if is_inf q then Raise OverflowError else Ok (VFloat q)
  | FloatFloat a b =>
      if is_zero b then Raise ZeroDivisionError else Ok (VFloat (fdiv a b))
  | ComplexComplex a b => complex_op Div a b
  end.

Definition py_mod (l r : value) : result value :=
  ops <- coerce l r ;;
  match ops with
  | IntInt a b =>
      if b =? 0 then Raise ZeroDivisionError else Ok (VInt (a mod b))
  | FloatFloat a b => float_rem a b
  | ComplexComplex _ _ => Raise TypeError
  end.

Definition py_floordiv (l r : value) : result value :=
  ops <- coerce l r ;;
  match ops with
  | IntInt a b =>
      if b =? 0 then Raise ZeroDivisionError else Ok (VInt (a / b))
  | FloatFloat a b => float_floor_div a b
  | ComplexComplex _ _ => Raise TypeError
  end.

Definition py_pow (l r : value) : result value :=
  ops <- coerce l r ;;
  match ops with
  | IntInt a b =>
      if b <? 0 then
        x <- int_to_float a ;; y <- int_to_float b ;; float_pow x y
      else Ok (VInt (a ^ b))
  | FloatFloat a b => float_pow a b
  | ComplexComplex a b => complex_op Pow a b
  end.

Definition py_neg (x : value) : result value :=
  match x with
  | VBool b => Ok (VInt (- Z.b2z b))
  | VInt z => Ok (VInt (- z))
  | VFloat f => Ok (VFloat (fneg f))
  | VComplex (re, im) => Ok (VComplex (fneg re, fneg im))
  end.

Definition py_pos (x : value) : result value :=
  match x with
  | VBool b => Ok (VInt (Z.b2z b))
  | _ => Ok x
  end.

End WithRuntime.
End PyNum.
Import PyNum.

(** ** The safe evaluator *)

(** The functions of the [operator] module the table refers to. *)
Inductive pyfunc :=
| operator_add | operator_sub | operator_mul | operator_truediv
| operator_mod | operator_pow | operator_neg | operator_pos
| operator_floordiv.

(** [ALLOWED_OPERATORS]: a dictionary from operator class to function;
    [None] is a missing key. *)
Definition ALLOWED_OPERATORS (k : opclass) : option pyfunc :=
  match k with
  | BinClass Add => Some operator_add
  | BinClass Sub => Some operator_sub
  | BinClass Mult => Some operator_mul
  | BinClass Div => Some operator_truediv
  | BinClass Mod => Some operator_mod
  | BinClass Pow => Some operator_pow
  | UnClass USub => Some operator_neg
  | UnClass UAdd => Some operator_pos
  | BinClass FloorDiv => Some operator_floordiv
  | _ => None
  end.

(** [isinstance(node, ast.Num)] holds of a constant node whose value is an
    [int], a [float] or a [complex] and not a [bool]; [node.n] is that
    value. *)
Definition num_value (k : constant) : option value :=
  match k with
  | KInt z => Some (VInt z)
  | KFloat f => Some (VFloat f)
  | KComplex c => Some (VComplex c)
  | _ => None
  end.

(** [isinstance(node.value, (int, float))] *)
Definition int_or_float (k : constant) : option value :=
  match k with
  | KInt z => Some (VInt z)
  | KBool b => Some (VBool b)
  | KFloat f => Some (VFloat f)
  | _ => None
  end.

Section Evaluator.
Variable rt : Runtime.

(** A call of a function of the table with two arguments, and with one. *)
Definition call2 (f : pyfunc) (l r : value) : result value :=
  match f with
  | operator_add => py_add rt l r
  | operator_sub => py_sub rt l r
  | operator_mul => py_mul rt l r
  | operator_truediv => py_truediv rt l r
  | operator_mod => py_mod l r
  | operator_pow => py_pow rt l r
  | operator_floordiv => py_floordiv l r
  | operator_neg | operator_pos => Raise TypeError
  end.

Definition call1 (f : pyfunc) (x : value) : result value :=
  match f with
  | operator_neg => py_neg x
  | operator_pos => py_pos x
  | _ => Raise TypeError
  end.

Fixpoint _eval (nd : node) : result value :=
  match nd with
  | Expression body => _eval body
  | Constant k =>
      match num_value k with
      | Some v => Ok v
      | None =>
          match int_or_float k with
          | Some v => Ok v
          | None => Raise (ValueError "Tipe konstanta tidak diizinkan")
          end
      end
  | BinOp l op r =>
      match ALLOWED_OPERATORS (BinClass op) with
      | None => Raise (ValueError "Operator tidak diizinkan")
      | Some f =>
          left <- _eval l ;;
          right <- _eval r ;;
          call2 f left right
      end
  | UnaryOp op x =>
      match ALLOWED_OPERATORS (UnClass op) with
      | None => Raise (ValueError "Operator unary tidak diizinkan")
      | Some f =>
          operand <- _eval x ;;
          call1 f operand
      end
  | Call _ _ => Raise (ValueError "Pemanggilan fungsi tidak diizinkan")
  | _ => Raise (ValueError "Ekspresi tidak diizinkan")
  end.

(** The three replacements at the head of [safe_eval]. *)
Definition to_python_operators (e : str) : str :=
  replace (replace (replace e 215 (u "*")) 247 (u "/")) 94 (u "**").

Definition safe_eval (e : str) : result value :=
  match ast_parse rt (to_python_operators e) with
  | Raise SyntaxError => Raise (ValueError "Sintaks salah")
  | Raise other => Raise other
  | Ok nd => _eval nd
  end.

End Evaluator.

(** ** [str()], [float()] and [str.isdigit] *)

Module PyStr.

(** Decimal digits of a natural number, most significant first. *)
Fixpoint digits_of (fuel : nat) (n : N) (acc : str) : str :=
  match fuel with
  | O => acc
  | S fuel' =>
      let acc' := (48 + n mod 10) :: acc in
      if n / 10 =? 0 then acc' else digits_of fuel' (n / 10) acc'
  end.

(** [str(z)] for an [int] *)
Definition str_int (z : Z) : str :=
  match z with
  | Z0 => u "0"
  | Zpos p => digits_of (Pos.size_nat p) (Npos p) []
  | Zneg p => 45 :: digits_of (Pos.size_nat p) (Npos p) []
  end.

Section WithRuntime.
Variable rt : Runtime.

(** [str(f)] for a [float] *)
Definition str_float (f : float) : str :=
  match f with
  | S754_nan => u "nan"
  | S754_infinity false => u "inf"
  | S754_infinity true => u "-inf"
  | S754_zero false => u "0.0"
  | S754_zero true => u "-0.0"
  | S754_finite s m e => float_repr_finite rt s m e
  end.

(** [str(v)] *)
Definition str_value (v : value) : str :=
  match v with
  | VBool true => u "True"
  | VBool false => u "False"
  | VInt z => str_int z
  | VFloat f => str_float f
  | VComplex c => complex_repr rt c
  end.

(** [c.isdigit()] for one character *)
Definition isdigit (c : char) : bool :=
  if c <? 128 then (48 <=? c) && (c <=? 57) else unicode_isdigit rt c.

(** The decimal digit [float()] reads in [c], if any. *)
Definition decimal_digit (c : char) : option N :=
  if c <? 128 then
    if (48 <=? c) && (c <=? 57) then Some (c - 48) else None
  else unicode_decimal rt c.

(** A maximal run of decimal digits at the head of [s]: the number read
    so far, how many digits were read, and the rest. *)
Fixpoint read_digits (s : str) (acc : N) (count : nat) : N * nat * str :=
  match s with
  | [] => (acc, count, [])
  | c :: s' =>
      match decimal_digit c with
      | Some d => read_digits s' (acc * 10 + d) (S count)
      | None => (acc, count, s)
      end
  end.

(** [float(s)] for a text [s] made of digits, ['.'], ['e'] and ['E']
    only, which is all that [negate] and [percent] pass to it:
    digits with an optional point, at least one digit, then an optional
    exponent of at least one digit.  [None] is a [ValueError]. *)
Definition float_of_text (s : str) : option float :=
  let '(ip, ni, s1) := read_digits s 0 O in
  let '(m, nf, s2) :=
    match s1 with
    | 46 :: s1' => read_digits s1' ip O
    | _ => (ip, O, s1)
    end in
  if (ni + nf =? 0)%nat then None
  else
    match s2 with
    | [] => Some (round_decimal m (- Z.of_nat nf))
    | c :: s3 =>
        if (c =? 101) || (c =? 69) then
          match read_digits s3 0 O with
          | (ex, S _, []) => Some (round_decimal m (Z.of_N ex - Z.of_nat nf))
          | _ => None
          end
        else None
    end.

End WithRuntime.
End PyStr.
Import PyStr.

(** ** The calculator window: the state the buffer operations touch *)

Inductive callback := Update_display.

Record Calculator := {
  expr : str;                          (* self.expr *)
  display_var : str;                   (* self.display_var *)
  after_queue : list (N * callback)    (* timers registered with self.after *)
}.

Definition set_expr (self : Calculator) (e : str) : Calculator :=
  {| expr := e; display_var := display_var self; after_queue := after_queue self |}.

Definition set_display (self : Calculator) (t : str) : Calculator :=
  {| expr := expr self; display_var := t; after_queue := after_queue self |}.

Definition after (self : Calculator) (ms : N) (cb : callback) : Calculator :=
  {| expr := expr self; display_var := display_var self;
     after_queue := after_queue self ++ [(ms, cb)] |}.

(** The four operator characters of [append], in the order of the source
    literal. *)
Definition OPERATOR_CHARS : str := u "÷×+-".

Definition is_empty (s : str) : bool :=
  match s with [] => true | _ => false end.

(** [Calculator._update_display] *)
Definition display_text (e : str) : str :=
  let text := if is_empty e then u "0" else e in
  if (30 <? List.length text)%nat then tail_slice 30 text else text.

Definition _update_display (self : Calculator) : Calculator :=
  set_display self (display_text (expr self)).

(** [Calculator.append] *)
Definition append (self : Calculator) (char : str) : Calculator :=
  if contains OPERATOR_CHARS char
     && (is_empty (expr self) || contains OPERATOR_CHARS [last_char (expr self)])
  then
    if negb (is_empty (expr self)) then
      _update_display (set_expr self (drop_last (expr self) ++ char))
    else self
  else _update_display (set_expr self (expr self ++ char)).

(** [Calculator.clear] *)
Definition clear (self : Calculator) : Calculator :=
  _update_display (set_expr self []).

(** [Calculator.backspace] *)
Definition backspace (self : Calculator) : Calculator :=
  _update_display (set_expr self (drop_last (expr self))).

(** [Calculator.__init__], as far as the buffer is concerned. *)
Definition init : Calculator :=
  _update_display {| expr := []; display_var := []; after_queue := [] |}.



(** ** The buffer operations that compute *)

Section Buffer.
Variable rt : Runtime.

(** The test of the [while] loops of [negate] and [percent]. *)
Definition in_number (c : char) : bool :=
  isdigit rt c || (c =? 46) || contains (u "eE") [c].

(** The [while] loop: [i] runs down from [len(expr) - 1] while
    [i >= 0] and [expr[i]] is part of a number.  The loop body runs at most
    [len(expr)] times, which bounds [steps]. *)
Fixpoint scan_back (e : str) (steps : nat) (i : Z) : Z :=
  match steps with
  | O => i
  | S steps' =>
      if (0 <=? i)%Z && in_number (List.nth (Z.to_nat i) e 0)
      then scan_back e steps' (i - 1)
      else i
  end.

(** [i + 1] after the loop: where [expr[i+1:]] starts. *)
Definition number_start (e : str) : nat :=
  Z.to_nat (scan_back e (List.length e) (Z.of_nat (List.length e) - 1) + 1).

(** [str(int(val)) if val.is_integer() else str(val)] *)
Definition render (val : float) : str :=
  if is_integer val then str_int (trunc val) else str_float rt val.

(** [Calculator.negate] *)
Definition negate (self : Calculator) : Calculator :=
  if is_empty (expr self) then self
  else
    let start := number_start (expr self) in
    let num := List.skipn start (expr self) in
    if is_empty num then self
    else
      match float_of_text rt num with
      | None => self
      | Some val =>
          let val := fneg val in
          _update_display
            (set_expr self (List.firstn start (expr self) ++ render val))
      end.

(** [Calculator.percent] *)
Definition percent (self : Calculator) : Calculator :=
  if is_empty (expr self) then self
  else
    let start := number_start (expr self) in
    let num := List.skipn start (expr self) in
    if is_empty num then self
    else
      match float_of_text rt num with
      | None => self
      | Some val =>
          let val := fdiv val hundred in
          _update_display
            (set_expr self (List.firstn start (expr self) ++ render val))
      end.

(** The two replacements of [evaluate]. *)
Definition py_expr (e : str) : str :=
  replace (replace e 247 (u "/")) 215 (u "*").

(** The body of the [try] of [evaluate] up to the assignment: the text
    the buffer is replaced with, or the exception. *)
Definition evaluated_text (e : str) : result str :=
  res <- safe_eval rt (py_expr e) ;;
  match res with
  | VFloat f =>
      if is_integer f then Ok (str_int (trunc f)) else Ok (str_value rt res)
  | _ => Ok (str_value rt res)
  end.

(** [Calculator.evaluate] *)
Definition evaluate (self : Calculator) : Calculator :=
  if is_empty (expr self) then self
  else
    match evaluated_text (expr self) with
    | Ok text => _update_display (set_expr self text)
    | Raise _ => after (set_display self (u "Error")) 1200 Update_display
    end.

End Buffer.

(** ** The shortest text of a float

    Python's [repr] of a finite non-zero float: the shortest run of decimal
    digits that [float()] reads back as the same float, the closest one to
    the float among the shortest, laid out in positional notation when the
    decimal point falls between the fourth place before the digits and the
    sixteenth place after their head, and with an exponent otherwise. *)

Module Repr.
Local Open Scope Z_scope.

(** The positive float [m * 2 ^ e] as a fraction. *)
Definition fraction (m : positive) (e : Z) : Z * Z :=
  if 0 <=? e then (Zpos m * 2 ^ e, 1) else (Zpos m, 2 ^ (- e)).

(** [10 ^ t <= num / den] *)
Definition pow10_le (t num den : Z) : bool :=
  if 0 <=? t then 10 ^ t * den <=? num else den <=? num * 10 ^ (- t).

(** The [t] with [10 ^ t <= num / den < 10 ^ (t + 1)], from an estimate
    that is at most two below it. *)
Fixpoint decimal_exponent (fuel : nat) (t num den : Z) : Z :=
  match fuel with
  | O => t
  | S fuel' =>
      if pow10_le (t + 1) num den then decimal_exponent fuel' (t + 1) num den
      else t
  end.

(** [num / den] in units of [10 ^ k]: the integer part and whether the
    rest is below, at or above one half. *)
Definition scaled (num den k : Z) : Z * comparison :=
  let '(a, b) := if 0 <=? k then (num, den * 10 ^ k) else (num * 10 ^ (- k), den) in
  (a / b, (2 * (a mod b)) ?= b).

Definition reads_back (m : positive) (e : Z) (c k : Z) : bool :=
  match round_decimal (Z.to_N c) k with
  | S754_finite false m' e' => (Zpos m' =? Zpos m) && (e' =? e)
  | _ => false
  end.

(** The shortest run of digits, as an integer [c] and a power of ten [k]
    with [c * 10 ^ k] the number written; [n] counts the digits tried. *)
Fixpoint shortest (fuel : nat) (n : Z) (m : positive) (e t : Z) : Z * Z :=
  let '(num, den) := fraction m e in
  let k := t + 1 - n in
  let '(lo, side) := scaled num den k in
  match fuel with
  | O => (match side with Gt => lo + 1 | _ => lo end, k)
  | S fuel' =>
      match reads_back m e lo k, reads_back m e (lo + 1) k with
      | true, true =>
          (match side with
           | Lt => lo
           | Gt => lo + 1
           | Eq => if Z.even lo then lo else lo + 1
           end, k)
      | true, false => (lo, k)
      | false, true => (lo + 1, k)
      | false, false => shortest fuel' (n + 1) m e t
      end
  end.

Fixpoint strip_zeros (rev_digits : str) : str :=
  match rev_digits with
  | c :: ((_ :: _) as rest) =>
      if (c =? 48)%N then strip_zeros rest else rev_digits
  | _ => rev_digits
  end.

Definition zeros (n : Z) : str := List.repeat 48%N (Z.to_nat n).

(** The digits without trailing zeros, and the place of the decimal
    point counted from the head of the digits. *)
Definition digits_and_point (m : positive) (e : Z) : str * Z :=
  let '(num, den) := fraction m e in
  let estimate := (Z.log2 num - Z.log2 den - 1) * 30103 / 100000 - 1 in
  let t := decimal_exponent 4 estimate num den in
  let '(c, k) := shortest 17 1 m e t in
  let all := str_int c in
  (List.rev (strip_zeros (List.rev all)), k + Z.of_nat (List.length all)).

(** The exponent, with its sign and at least two digits. *)
Definition exponent_text (x : Z) : str :=
  let ds := str_int (Z.abs x) in
  (if x <? 0 then 45%N else 43%N)
    :: (if (List.length ds <? 2)%nat then 48%N :: ds else ds).

Definition layout (ds : str) (point : Z) : str :=
  if (point <=? -4) || (16 <? point) then
    match ds with
    | [] => []
    | d :: [] => d :: 101%N :: exponent_text (point - 1)
    | d :: rest => d :: 46%N :: rest ++ 101%N :: exponent_text (point - 1)
    end
  else if point <=? 0 then
    48%N :: 46%N :: zeros (- point) ++ ds
  else if Z.of_nat (List.length ds) <=? point then
    ds ++ zeros (point - Z.of_nat (List.length ds)) ++ [46%N; 48%N]
  else
    List.firstn (Z.to_nat point) ds ++ 46%N :: List.skipn (Z.to_nat point) ds.

Definition float_repr (s : bool) (m : positive) (e : Z) : str :=
  let '(ds, point) := digits_and_point m e in
  (if s then [45%N] else []) ++ layout ds point.

End Repr.

(** ** A runtime for the examples

    A recursive-descent parser for the part of Python's expression grammar
    the calculator can type, extended with names and calls: decimal number
    literals, names, parentheses, the empty tuple, calls, and the operators
    [+ - * / % // ** ~].  Any other text is answered with a syntax error.
    Floats are rendered by [Repr.float_repr].  The libm power, complex
    arithmetic and the text of complex numbers are placeholders: no
    example depends on them. *)

Module Example.
Local Open Scope N_scope.

Inductive token :=
| TNum (k : constant)
| TName (id : str)
| TPlus | TMinus | TStar | TSlash | TPercent | TDoubleStar | TDoubleSlash
| TTilde | TLParen | TRParen | TComma.

Definition is_ascii_digit (c : char) : bool := (48 <=? c) && (c <=? 57).

Definition is_name_start (c : char) : bool :=
  ((65 <=? c) && (c <=? 90)) || ((97 <=? c) && (c <=? 122)) || (c =? 95).

Definition is_name_char (c : char) : bool :=
  is_name_start c || is_ascii_digit c.

Fixpoint ascii_digits (s : str) (acc : N) (count : nat) : N * nat * str :=
  match s with
  | [] => (acc, count, [])
  | c :: s' =>
      if is_ascii_digit c then ascii_digits s' (acc * 10 + (c - 48)) (S count)
      else (acc, count, s)
  end.

Fixpoint name_chars (s : str) : str * str :=
  match s with
  | [] => ([], [])
  | c :: s' =>
      if is_name_char c then let '(id, rest) := name_chars s' in (c :: id, rest)
      else ([], s)
  end.

(** The exponent part of a number, if one starts [s]. *)
Definition lex_exponent (s : str) : option (Z * str) :=
  match s with
  | c :: s1 =>
      if (c =? 101) || (c =? 69) then
        let '(neg, s2) :=
          match s1 with
          | 43 :: s2 => (false, s2)
          | 45 :: s2 => (true, s2)
          | _ => (false, s1)
          end in
        match ascii_digits s2 0 O with
        | (_, O, _) => None
        | (ex, S _, rest) => Some (if neg then (- Z.of_N ex)%Z else Z.of_N ex, rest)
        end
      else None
  | [] => None
  end.

(** A number literal at the head of [s], which starts with a digit or with
    a point followed by a digit.  [None] is an integer literal with a
    forbidden leading zero. *)
Definition lex_number (s : str) : option (constant * str) :=
  let '(ip, ni, s1) := ascii_digits s 0 O in
  let '(m, nf, has_point, s2) :=
    match s1 with
    | 46 :: s1' =>
        let '(m, nf, s2) := ascii_digits s1' ip O in (m, nf, true, s2)
    | _ => (ip, O, false, s1)
    end in
  match lex_exponent s2 with
  | Some (ex, s3) => Some (KFloat (round_decimal m (ex - Z.of_nat nf)), s3)
  | None =>
      if has_point then Some (KFloat (round_decimal m (- Z.of_nat nf)), s2)
      else
        match s with
        | 48 :: _ => if (ip =? 0) then Some (KInt 0, s2) else None
        | _ => Some (KInt (Z.of_N ip), s2)
        end
  end.

Definition keyword_or_name (id : str) : option token :=
  if str_eqb id (u "True") then Some (TNum (KBool true))
  else if str_eqb id (u "False") then Some (TNum (KBool false))
  else if str_eqb id (u "None") then Some (TNum KNone)
  else if existsb (str_eqb id)
            [u "and"; u "or"; u "not"; u "if"; u "else"; u "in"; u "is";
             u "lambda"; u "for"; u "await"; u "yield"]
  then None
  else Some (TName id).

Fixpoint tokenize (fuel : nat) (s : str) : option (list token) :=
  match fuel with
  | O => None
  | S fuel' =>
      let continue tok rest :=
        match tokenize fuel' rest with
        | Some ts => Some (tok :: ts)
        | None => None
        end in
      match s with
      | [] => Some []
      | c :: s' =>
          if c =? 32 then tokenize fuel' s'
          else if is_ascii_digit c
                  || ((c =? 46) && match s' with d :: _ => is_ascii_digit d | [] => false end)
          then
            match lex_number s with
            | Some (k, rest) => continue (TNum k) rest
            | None => None
            end
          else if is_name_start c then
            let '(id, rest) := name_chars s in
            match keyword_or_name id with
            | Some tok => continue tok rest
            | None => None
            end
          else
            match c, s' with
            | 42, 42 :: s'' => continue TDoubleStar s''
            | 47, 47 :: s'' => continue TDoubleSlash s''
            | 42, _ => continue TStar s'
            | 47, _ => continue TSlash s'
            | 43, _ => continue TPlus s'
            | 45, _ => continue TMinus s'
            | 37, _ => continue TPercent s'
            | 126, _ => continue TTilde s'
            | 40, _ => continue TLParen s'
            | 41, _ => continue TRParen s'
            | 44, _ => continue TComma s'
            | _, _ => None
            end
      end
  end.

(** The non-terminals of the grammar, from loosest to tightest; the [Rest]
    levels carry the operand parsed so far. *)
Inductive level :=
| LArith
| LArithRest (l : node)
| LTerm
| LTermRest (l : node)
| LFactor
| LPower
| LPrimary
| LTrailers (f : node)
| LArgs (f : node) (rev_args : list node).

Fixpoint parse (fuel : nat) (lvl : level) (ts : list token) : option (node * list token) :=
  match fuel with
  | O => None
  | S fuel' =>
      let binary l op ts' next :=
        match parse fuel' LFactor ts' with
        | Some (r, rest) => parse fuel' (next (BinOp l op r)) rest
        | None => None
        end in
      match lvl with
      | LArith =>
          match parse fuel' LTerm ts with
          | Some (l, rest) => parse fuel' (LArithRest l) rest
          | None => None
          end
      | LArithRest l =>
          let additive op ts' :=
            match parse fuel' LTerm ts' with
            | Some (r, rest) => parse fuel' (LArithRest (BinOp l op r)) rest
            | None => None
            end in
          match ts with
          | TPlus :: ts' => additive Add ts'
          | TMinus :: ts' => additive Sub ts'
          | _ => Some (l, ts)
          end
      | LTerm =>
          match parse fuel' LFactor ts with
          | Some (l, rest) => parse fuel' (LTermRest l) rest
          | None => None
          end
      | LTermRest l =>
          match ts with
          | TStar :: ts' => binary l Mult ts' LTermRest
          | TSlash :: ts' => binary l Div ts' LTermRest
          | TPercent :: ts' => binary l Mod ts' LTermRest
          | TDoubleSlash :: ts' => binary l FloorDiv ts' LTermRest
          | _ => Some (l, ts)
          end
      | LFactor =>
          let unary op ts' :=
            match parse fuel' LFactor ts' with
            | Some (x, rest) => Some (UnaryOp op x, rest)
            | None => None
            end in
          match ts with
          | TPlus :: ts' => unary UAdd ts'
          | TMinus :: ts' => unary USub ts'
          | TTilde :: ts' => unary Invert ts'
          | _ => parse fuel' LPower ts
          end
      | LPower =>
          match parse fuel' LPrimary ts with
          | Some (b, TDoubleStar :: ts') =>
              match parse fuel' LFactor ts' with
              | Some (x, rest) => Some (BinOp b Pow x, rest)
              | None => None
              end
          | other => other
          end
      | LPrimary =>
          match ts with
          | TNum k :: ts' => parse fuel' (LTrailers (Constant k)) ts'
          | TName id :: ts' => parse fuel' (LTrailers (Name id)) ts'
          | TLParen :: TRParen :: ts' => parse fuel' (LTrailers (Other "Tuple")) ts'
          | TLParen :: ts' =>
              match parse fuel' LArith ts' with
              | Some (x, TRParen :: rest) => parse fuel' (LTrailers x) rest
              | _ => None
              end
          | _ => None
          end
      | LTrailers f =>
          match ts with
          | TLParen :: TRParen :: ts' => parse fuel' (LTrailers (Call f [])) ts'
          | TLParen :: ts' => parse fuel' (LArgs f []) ts'
          | _ => Some (f, ts)
          end
      | LArgs f rev_args =>
          match parse fuel' LArith ts with
          | Some (a, TComma :: TRParen :: rest)
          | Some (a, TRParen :: rest) =>
              parse fuel' (LTrailers (Call f (List.rev (a :: rev_args)))) rest
          | Some (a, TComma :: rest) => parse fuel' (LArgs f (a :: rev_args)) rest
          | _ => None
          end
      end
  end.

Definition parse_expression (s : str) : result node :=
  match s with
  | 32 :: _ => Raise SyntaxError
  | _ =>
      match tokenize (S (List.length s)) s with
      | None => Raise SyntaxError
      | Some ts =>
          match parse (8 * List.length ts + 8) LArith ts with
          | Some (nd, []) => Ok (Expression nd)
          | _ => Raise SyntaxError
          end
      end
  end.

Definition runtime : Runtime := {|
  ast_parse := parse_expression;
  unicode_isdigit := fun _ => false;
  unicode_decimal := fun _ => None;
  libm_pow := fun _ _ => S754_nan;
  complex_binop := fun _ _ _ => CERANGE;
  float_repr_finite := Repr.float_repr;
  complex_repr := fun _ => u "1j"
|}.

(** A calculator whose buffer holds the given text. *)
Definition with_buffer (e : str) : Calculator :=
  _update_display {| expr := e; display_var := []; after_queue := [] |}.

End Example.

(** ** Notions the statements use *)

(** One of the four operator characters of [append]. *)
Definition is_operator (c : char) : bool := contains OPERATOR_CHARS [c].

(** A character of a number, as [negate] and [percent] scan it: a digit,
    a point, or an exponent marker. *)
Definition numeric_char (rt : Runtime) (c : char) : Prop :=
  isdigit rt c = true \/ c = 46 \/ c = 101 \/ c = 69.

(** [run] is the maximal trailing run of numeric characters of
    [pre ++ run]. *)
Definition trailing_run (rt : Runtime) (pre run : str) : Prop :=
  Forall (numeric_char rt) run /\
  (forall pre' c, pre = pre' ++ [c] -> ~ numeric_char rt c).

(** An [int] operand; a [bool] is an [int]. *)
Definition as_int (v : value) : option Z :=
  match v with
  | VBool b => Some (Z.b2z b)
  | VInt z => Some z
  | _ => None
  end.

Definition is_float_value (v : value) : bool :=
  match v with VFloat _ => true | _ => false end.


(** An ASCII digit, and the number a text of ASCII digits denotes. *)
Definition ascii_digit (c : char) : Prop := 48 <= c <= 57.

Definition digits_value (ds : str) : N :=
  List.fold_left (fun acc c => acc * 10 + (c - 48)) ds 0.

(** The error kinds of the evaluator.  The evaluator reports a syntax
    error and a construct it does not allow with the same exception class
    and tells them apart by the message. *)
Definition disallowed_message (msg : string) : Prop :=
  msg = "Tipe konstanta tidak diizinkan"%string \/
  msg = "Operator tidak diizinkan"%string \/
  msg = "Operator unary tidak diizinkan"%string \/
  msg = "Pemanggilan fungsi tidak diizinkan"%string \/
  msg = "Ekspresi tidak diizinkan"%string.

Definition disallowed_construct (e : exn) : Prop :=
  exists msg, e = ValueError msg /\ disallowed_message msg.

(** The exceptions Python's arithmetic raises. *)
Definition arithmetic_error (e : exn) : Prop :=
  e = ZeroDivisionError \/ e = OverflowError \/ e = TypeError.

(** The operators of the whitelist. *)
Definition allowed_binary (op : operator) : bool :=
  match op with
  | Add | Sub | Mult | Div | Mod | Pow | FloorDiv => true
  | _ => false
  end.

Definition allowed_unary (op : unaryop) : bool :=
  match op with
  | USub | UAdd => true
  | _ => false
  end.

(** A constant that is a number to Python ([bool] is a subclass of
    [int]). *)
Definition number_constant (k : constant) : bool :=
  match k with
  | KInt _ | KFloat _ | KComplex _ | KBool _ => true
  | _ => false
  end.

(** The tree contains a construct outside number constants and unary and
    binary operations of the whitelist: a name, a call, another node
    class, another operator, or a constant that is not a number. *)
Fixpoint has_disallowed (nd : node) : bool :=
  match nd with
  | Expression body => has_disallowed body
  | Constant k => negb (number_constant k)
  | BinOp l op r => negb (allowed_binary op) || has_disallowed l || has_disallowed r
  | UnaryOp op x => negb (allowed_unary op) || has_disallowed x
  | Call _ _ | Name _ | Other _ => true
  end.

(** Every operand that is evaluated before a disallowed construct is
    reached evaluates to a value. *)
Fixpoint operands_evaluate (rt : Runtime) (nd : node) : Prop :=
  match nd with
  | Expression body => operands_evaluate rt body
  | BinOp l _ r =>
      if has_disallowed l then operands_evaluate rt l
      else (exists v, _eval rt l = Ok v) /\ operands_evaluate rt r
  | UnaryOp _ x => operands_evaluate rt x
  | _ => True
  end.

(** No two adjacent characters of the text are operator characters. *)
Fixpoint no_adjacent_operators (s : str) : bool :=
  match s with
  | [] => true
  | a :: rest =>
      match rest with
      | [] => true
      | b :: _ => negb (is_operator a && is_operator b) && no_adjacent_operators rest
      end
  end.

Definition head_is_operator (s : str) : bool :=
  match s with
  | c :: _ => is_operator c
  | [] => false
  end.

Definition last_is_operator (s : str) : bool :=
  negb (is_empty s) && is_operator (last_char s).

(** A text without operator characters. *)
Definition operator_free (s : str) : Prop :=
  Forall (fun c => is_operator c = false) s.

(** The text ends in at most one operator character. *)
Definition at_most_one_trailing_operator (s : str) : Prop :=
  forall pre a b, s = pre ++ [a; b] ->
                  ~ (is_operator a = true /\ is_operator b = true).

(** The operations the window offers, and a session: a sequence of them
    from the state of a new window. *)
Inductive command :=
| Append (c : char)
| Backspace
| Clear
| Negate
| Percent
| Evaluate.

Definition step (rt : Runtime) (self : Calculator) (cmd : command) : Calculator :=
  match cmd with
  | Append c => append self [c]
  | Backspace => backspace self
  | Clear => clear self
  | Negate => negate rt self
  | Percent => percent rt self
  | Evaluate => evaluate rt self
  end.

Definition run (rt : Runtime) (cmds : list command) : Calculator :=
  List.fold_left (step rt) cmds init.

Definition is_negate (cmd : command) : bool :=
  match cmd with Negate => true | _ => false end.

(** What the statement about sessions needs of the rendering of floats and
    complex numbers, and Python's [repr] provides: no two adjacent
    operator characters, and no operator character at the head of the
    text of a positive float. *)
Definition renders_cleanly (rt : Runtime) : Prop :=
  (forall s m e, no_adjacent_operators (float_repr_finite rt s m e) = true) /\
  (forall m e, head_is_operator (float_repr_finite rt false m e) = false) /\
  (forall c, no_adjacent_operators (complex_repr rt c) = true).

(** ** The window: keys, buttons and timers *)

(** [s.isdigit()] on a text: at least one character, and every character
    a digit. *)
Definition str_isdigit (rt : Runtime) (s : str) : bool :=
  negb (is_empty s) && List.forallb (isdigit rt) s.

(** The characters [_on_key] passes on, in the order of the source
    literal. *)
Definition KEY_CHARS : str := u ".+-*/()%".

(** [Calculator._on_key]; [key] is [event.char], the text the key
    produces: one character, or no character for a key such as Shift. *)
Definition _on_key (rt : Runtime) (self : Calculator) (key : str) : Calculator :=
  if str_isdigit rt key || contains KEY_CHARS key then
    if str_eqb key (u "/") then append self (u "÷")
    else if str_eqb key (u "*") then append self (u "×")
    else append self key
  else if str_eqb key [13] then evaluate rt self
  else self.

(** The table [btn_specs] of [_create_widgets]: the label, the row, the
    column and the command of each button. *)
Definition btn_specs : list (str * N * N * command) :=
  [ (u "C", 1, 0, Clear); (u "+/-", 1, 1, Negate);
    (u "%", 1, 2, Percent); (u "⌫", 1, 3, Backspace);
    (u "7", 2, 0, Append 55); (u "8", 2, 1, Append 56);
    (u "9", 2, 2, Append 57); (u "÷", 2, 3, Append 247);
    (u "4", 3, 0, Append 52); (u "5", 3, 1, Append 53);
    (u "6", 3, 2, Append 54); (u "×", 3, 3, Append 215);
    (u "1", 4, 0, Append 49); (u "2", 4, 1, Append 50);
    (u "3", 4, 2, Append 51); (u "-", 4, 3, Append 45);
    (u "0", 5, 0, Append 48); (u ".", 5, 1, Append 46);
    (u "=", 5, 2, Evaluate); (u "+", 5, 3, Append 43) ].

(** The handlers [_bind_keys] registers: [_on_key], which reads the
    event, or a function that ignores the event and calls one operation. *)
Inductive handler :=
| On_key
| Ignoring_event (cmd : command).

Definition _bind_keys : list (string * handler) :=
  [ ("<Key>", On_key);
    ("<Return>", Ignoring_event Evaluate);
    ("<KP_Enter>", Ignoring_event Evaluate);
    ("<BackSpace>", Ignoring_event Backspace);
    ("<Escape>", Ignoring_event Clear) ]%string.

(** A timer registered with [after] comes due: the callback is called
    once and the timer is gone.  All timers of the program have the same
    delay, so they come due in the order of their registration. *)
Definition run_callback (cb : callback) (self : Calculator) : Calculator :=
  match cb with
  | Update_display => _update_display self
  end.

Definition timer_due (self : Calculator) : Calculator :=
  match after_queue self with
  | [] => self
  | (_, cb) :: rest =>
      run_callback cb {| expr := expr self; display_var := display_var self;
                         after_queue := rest |}
  end.

(** What happens to the window: the button with a given label is
    pressed, the handler bound to an event pattern is called with an event
    of a given [char], or a timer comes due. *)
Inductive event :=
| Click (label : str)
| KeyEvent (pattern : string) (char : str)
| Timer.

Definition button_command (label : str) : option command :=
  match List.find (fun b => str_eqb (fst (fst (fst b))) label) btn_specs with
  | Some (_, _, _, cmd) => Some cmd
  | None => None
  end.

Definition bound_handler (pattern : string) : option handler :=
  match List.find (fun b => String.eqb (fst b) pattern) _bind_keys with
  | Some (_, h) => Some h
  | None => None
  end.

Definition handle (rt : Runtime) (self : Calculator) (ev : event) : Calculator :=
  match ev with
  | Click label =>
      match button_command label with
      | Some cmd => step rt self cmd
      | None => self
      end
  | KeyEvent pattern char =>
      match bound_handler pattern with
      | Some On_key => _on_key rt self char
      | Some (Ignoring_event cmd) => step rt self cmd
      | None => self
      end
  | Timer => timer_due self
  end.

(** The state of the window after a sequence of events, from a new
    window. *)
Definition window (rt : Runtime) (evs : list event) : Calculator :=
  List.fold_left (handle rt) evs init.

(** The display shows the buffer, as [_update_display] cuts it. *)
Definition in_sync (self : Calculator) : Prop :=
  display_var self = display_text (expr self).

(** The display shows the buffer, or the text [Error] while a redraw is
    pending. *)
Definition display_ok (self : Calculator) : Prop :=
  in_sync self \/ (display_var self = u "Error" /\ after_queue self <> []).


(** The event carries at most one character. *)
Definition one_character (ev : event) : bool :=
  match ev with
  | KeyEvent _ char => (List.length char <=? 1)%nat
  | _ => true
  end.

(** The event is a press of the sign button. *)
Definition is_sign_button (ev : event) : bool :=
  match ev with
  | Click label =>
      match button_command label with
      | Some Negate => true
      | _ => false
      end
  | _ => false
  end.

Definition is_evaluate (cmd : command) : bool :=
  match cmd with Evaluate => true | _ => false end.


(** The three operators that divide. *)
Definition divides (op : operator) : bool :=
  match op with
  | Div | FloorDiv | Mod => true
  | _ => false
  end.

(** A zero of type [int], [bool] or [float]. *)
Definition is_zero_value (v : value) : bool :=
  match v with
  | VBool b => negb b
  | VInt z => (z =? 0)%Z
  | VFloat f => is_zero f
  | VComplex _ => false
  end.

Definition is_complex_value (v : value) : bool :=
  match v with VComplex _ => true | _ => false end.

(** The node under the [Expression] wrappers. *)
Fixpoint body_of (nd : node) : node :=
  match nd with
  | Expression body => body_of body
  | _ => nd
  end.

(** ** Text and list facts *)

Lemma startswith_nil (a : str) : startswith a [] = true.
Proof. destruct a; reflexivity. Qed.

Lemma contains_single (hay : str) (c : char) :
  contains hay [c] = true <-> In c hay.
Proof.
  induction hay as [|x hay IH]; simpl.
  - split; [discriminate | tauto].
  - rewrite startswith_nil, andb_true_r, orb_true_iff, IH, N.eqb_eq. tauto.
Qed.

Lemma is_operator_iff (c : char) :
  is_operator c = true <-> In c OPERATOR_CHARS.
Proof. apply contains_single. Qed.

Lemma is_operator_cases (c : char) :
  is_operator c = true <-> c = 247 \/ c = 215 \/ c = 43 \/ c = 45.
Proof.
  rewrite is_operator_iff. change OPERATOR_CHARS with [247; 215; 43; 45].
  simpl. intuition congruence.
Qed.

Lemma is_empty_app_single (pre : str) (c : char) : is_empty (pre ++ [c]) = false.
Proof. destruct pre; reflexivity. Qed.

Lemma last_char_app_single (pre : str) (c : char) : last_char (pre ++ [c]) = c.
Proof. unfold last_char. apply last_last. Qed.

Lemma drop_last_app_single (pre : str) (c : char) : drop_last (pre ++ [c]) = pre.
Proof. unfold drop_last. apply removelast_last. Qed.

Lemma is_empty_true (s : str) : is_empty s = true <-> s = [].
Proof. destruct s; simpl; split; congruence. Qed.

Lemma tail_slice_suffix (n : nat) (s : str) :
  (n <= List.length s)%nat ->
  s = List.firstn (List.length s - n) s ++ tail_slice n s /\
  List.length (tail_slice n s) = n.
Proof.
  intros Hn. unfold tail_slice. split.
  - symmetry. apply firstn_skipn.
  - rewrite length_skipn. lia.
Qed.

(** ** The display *)

(** C9.  The display shows ["0"] for an empty buffer, the buffer itself
    when it has at most 30 characters, and exactly its last 30 characters
    when it is longer; of a buffer of 35 characters it shows the last 30. *)
Theorem display_shows_trailing_30 (self : Calculator) :
  (expr self = [] -> display_var (_update_display self) = u "0") /\
  (expr self <> [] -> (List.length (expr self) <= 30)%nat ->
   display_var (_update_display self) = expr self) /\
  ((30 < List.length (expr self))%nat ->
   exists dropped,
     expr self = dropped ++ display_var (_update_display self) /\
     List.length (display_var (_update_display self)) = 30%nat) /\
  (List.length (expr self) = 35%nat ->
   display_var (_update_display self) = List.skipn 5 (expr self) /\
   List.length (display_var (_update_display self)) = 30%nat).
Proof.
  unfold _update_display, display_text. simpl.
  repeat split.
  - intros ->. reflexivity.
  - intros Hne Hlen. destruct (expr self) as [|c e] eqn:E; [congruence|].
    simpl is_empty. cbv iota.
    destruct (Nat.ltb_spec 30 (List.length (c :: e))); [lia | reflexivity].
  - intros Hlen. destruct (expr self) as [|c e] eqn:E; [simpl in Hlen; lia|].
    simpl is_empty. cbv iota.
    destruct (Nat.ltb_spec 30 (List.length (c :: e))); [|lia].
    exists (List.firstn (List.length (c :: e) - 30) (c :: e)).
    apply tail_slice_suffix. lia.
  - destruct (expr self) as [|c e] eqn:E; [simpl in H; lia|].
    simpl is_empty. cbv iota.
    destruct (Nat.ltb_spec 30 (List.length (c :: e))); [|lia].
    unfold tail_slice. rewrite H. reflexivity.
  - destruct (expr self) as [|c e] eqn:E; [simpl in H; lia|].
    simpl is_empty. cbv iota.
    destruct (Nat.ltb_spec 30 (List.length (c :: e))); [|lia].
    apply tail_slice_suffix. lia.
Qed.

Lemma display_shows_trailing_30_witness :
  List.length (expr (Example.with_buffer (u "12345+12345+12345+12345+12345+12345"))) = 35%nat /\
  display_var (_update_display (Example.with_buffer (u "12345+12345+12345+12345+12345+12345")))
  = u "+12345+12345+12345+12345+12345".
Proof.
  assert (Hlen : List.length
            (expr (Example.with_buffer (u "12345+12345+12345+12345+12345+12345"))) = 35%nat)
    by (vm_compute; reflexivity).
  split; [exact Hlen|].
  destruct (display_shows_trailing_30
              (Example.with_buffer (u "12345+12345+12345+12345+12345+12345")))
    as (_ & _ & _ & H).
  destruct (H Hlen) as [H1 _]. rewrite H1. vm_compute. reflexivity.
Defined.

(** ** Appending *)

Lemma append_operator_empty (self : Calculator) (ch : char) :
  is_operator ch = true -> expr self = [] -> append self [ch] = self.
Proof.
  intros Hch He. unfold append. unfold is_operator in Hch.
  rewrite Hch, He. reflexivity.
Qed.

Lemma append_operator_replaces (self : Calculator) (ch c : char) (pre : str) :
  is_operator ch = true -> is_operator c = true -> expr self = pre ++ [c] ->
  expr (append self [ch]) = pre ++ [ch].
Proof.
  intros Hch Hc He. unfold append. unfold is_operator in Hch, Hc.
  rewrite Hch, He, last_char_app_single, Hc, is_empty_app_single.
  simpl. now rewrite drop_last_app_single.
Qed.

Lemma append_extends (self : Calculator) (ch c : char) (pre : str) :
  is_operator c = false -> expr self = pre ++ [c] ->
  expr (append self [ch]) = pre ++ [c; ch].
Proof.
  intros Hc He. unfold append. unfold is_operator in Hc.
  rewrite He, last_char_app_single, Hc, is_empty_app_single.
  rewrite andb_false_r. simpl. now rewrite <- app_assoc.
Qed.

Lemma append_non_operator (self : Calculator) (ch : char) :
  is_operator ch = false -> expr (append self [ch]) = expr self ++ [ch].
Proof.
  intros Hch. unfold append. unfold is_operator in Hch. now rewrite Hch.
Qed.

(** C4.  For an operator character [ch]: on an empty buffer [append] does
    nothing; when the buffer ends in an operator character, that character
    is replaced by [ch]; otherwise [ch] is added at the end. *)
Theorem append_operator_char (self : Calculator) (ch : char) :
  In ch OPERATOR_CHARS ->
  (expr self = [] -> append self [ch] = self) /\
  (forall pre c, expr self = pre ++ [c] -> In c OPERATOR_CHARS ->
                 expr (append self [ch]) = pre ++ [ch]) /\
  (forall pre c, expr self = pre ++ [c] -> ~ In c OPERATOR_CHARS ->
                 expr (append self [ch]) = expr self ++ [ch]).
Proof.
  intros Hch. apply is_operator_iff in Hch. repeat split.
  - now apply append_operator_empty.
  - intros pre c He Hc. apply is_operator_iff in Hc.
    now apply append_operator_replaces with (c := c).
  - intros pre c He Hc. rewrite He, <- app_assoc.
    apply append_extends; [|exact He].
    destruct (is_operator c) eqn:E; [|reflexivity].
    apply is_operator_iff in E. contradiction.
Qed.

Lemma append_operator_char_witness :
  In 45 OPERATOR_CHARS /\
  expr (append (Example.with_buffer (u "7+")) [45]) = u "7-" /\
  expr (append (Example.with_buffer (u "7")) [45]) = u "7-" /\
  append (Example.with_buffer []) [45] = Example.with_buffer [].
Proof.
  assert (H : In 45 OPERATOR_CHARS) by (vm_compute; tauto).
  split; [exact H|].
  pose proof (append_operator_char (Example.with_buffer (u "7+")) 45 H) as [_ [H1 _]].
  pose proof (append_operator_char (Example.with_buffer (u "7")) 45 H) as [_ [_ H2]].
  pose proof (append_operator_char (Example.with_buffer []) 45 H) as [H3 _].
  split; [|split].
  - apply (H1 (u "7") 43); [reflexivity | vm_compute; tauto].
  - apply (H2 [] 55); [reflexivity | vm_compute; intuition discriminate].
  - apply H3. reflexivity.
Defined.

(** C5 as stated fails: [+] then [-] typed into an empty buffer do not
    give the buffer ["-"]. *)
Lemma plus_then_minus_is_not_minus :
  expr (append (append init (u "+")) (u "-")) <> u "-".
Proof. vm_compute. discriminate. Qed.

(** C5, amended.  Both operators are dropped when the buffer is empty: the
    buffer stays empty, and is never ["+-"]. *)
Theorem plus_then_minus_on_empty (self : Calculator) :
  expr self = [] ->
  expr (append (append self (u "+")) (u "-")) = [] /\
  expr (append (append self (u "+")) (u "-")) <> u "+-".
Proof.
  intros He.
  assert (H1 : append self (u "+") = self)
    by (apply (append_operator_empty self 43); auto).
  assert (H2 : append self (u "-") = self)
    by (apply (append_operator_empty self 45); auto).
  rewrite H1, H2, He. split; [reflexivity | vm_compute; discriminate].
Qed.

Lemma plus_then_minus_on_empty_witness :
  expr init = [] /\ expr (append (append init (u "+")) (u "-")) = [].
Proof.
  split; [reflexivity|].
  exact (proj1 (plus_then_minus_on_empty init eq_refl)).
Defined.

(** ** The scan of [negate] and [percent] *)

Section Scan.
Variable rt : Runtime.

Lemma in_number_iff (c : char) : in_number rt c = true <-> numeric_char rt c.
Proof.
  unfold in_number, numeric_char.
  rewrite !orb_true_iff, N.eqb_eq, contains_single.
  change (u "eE") with [101; 69]. simpl. intuition congruence.
Qed.

Lemma scan_back_spec (e : str) (steps : nat) :
  forall i : Z,
    (-1 <= i < Z.of_nat (List.length e))%Z ->
    (i + 1 <= Z.of_nat steps)%Z ->
    (-1 <= scan_back rt e steps i <= i)%Z /\
    (forall k, (scan_back rt e steps i < k <= i)%Z ->
               in_number rt (List.nth (Z.to_nat k) e 0) = true) /\
    ((0 <= scan_back rt e steps i)%Z ->
     in_number rt (List.nth (Z.to_nat (scan_back rt e steps i)) e 0) = false).
Proof.
  induction steps as [|steps IH]; intros i Hi Hsteps.
  - simpl. repeat split; lia.
  - simpl scan_back.
    destruct (Z.leb_spec 0 i) as [Hpos|Hneg]; simpl andb.
    + destruct (in_number rt (List.nth (Z.to_nat i) e 0)) eqn:Hin.
      * destruct (IH (i - 1)%Z) as (Hb & Hall & Hstop); [lia | lia |].
        repeat split; try lia; [|exact Hstop].
        intros k Hk. destruct (Z.eq_dec k i) as [->|Hne]; [exact Hin|].
        apply Hall. lia.
      * repeat split; try lia. intros _. exact Hin.
    + repeat split; lia.
Qed.

Lemma number_start_app (pre run : str) :
  trailing_run rt pre run -> number_start rt (pre ++ run) = List.length pre.
Proof.
  intros [Hrun Hpre]. unfold number_start.
  set (e := pre ++ run).
  assert (Hlen : List.length e = (List.length pre + List.length run)%nat)
    by (unfold e; apply length_app).
  destruct (scan_back_spec e (List.length e) (Z.of_nat (List.length e) - 1))
    as (Hb & Hall & Hstop); [lia | lia |].
  set (j := scan_back rt e (List.length e) (Z.of_nat (List.length e) - 1)) in *.
  destruct (Z.lt_trichotomy (j + 1) (Z.of_nat (List.length pre))) as [Hlt|[Heq|Hgt]].
  - exfalso.
    destruct (exists_last (l := pre)) as (pre' & c & Hc).
    { intros ->. simpl in Hlt. lia. }
    apply (Hpre pre' c Hc). apply in_number_iff.
    specialize (Hall (Z.of_nat (List.length pre'))).
    rewrite Nat2Z.id in Hall.
    assert (Hn : List.nth (List.length pre') e 0 = c).
    { unfold e. rewrite Hc, <- app_assoc. simpl. apply nth_middle. }
    rewrite Hn in Hall. apply Hall.
    rewrite Hc, length_app in Hlt, Hlen. simpl in Hlt, Hlen. lia.
  - lia.
  - exfalso.
    assert (Hj : (0 <= j)%Z) by lia.
    specialize (Hstop Hj).
    assert (Hin : In (List.nth (Z.to_nat j) e 0) run).
    { unfold e. rewrite app_nth2 by lia. apply nth_In. lia. }
    rewrite Forall_forall in Hrun. apply Hrun, in_number_iff in Hin.
    congruence.
Qed.

Lemma trailing_run_exists (e : str) :
  exists pre run, e = pre ++ run /\ trailing_run rt pre run.
Proof.
  induction e as [|c e IH] using rev_ind.
  - exists [], []. split; [reflexivity|]. split; [constructor|].
    intros pre' c H. destruct pre'; discriminate.
  - destruct (in_number rt c) eqn:Hc.
    + destruct IH as (pre & run & -> & Hrun & Hpre).
      exists pre, (run ++ [c]). split; [now rewrite app_assoc|].
      split; [|exact Hpre].
      apply Forall_app. split; [exact Hrun|].
      constructor; [now apply in_number_iff | constructor].
    + exists (e ++ [c]), []. split; [now rewrite app_nil_r|].
      split; [constructor|].
      intros pre' c' H. apply app_inj_tail in H as [_ <-].
      rewrite <- in_number_iff. congruence.
Qed.

Lemma firstn_length_app (pre run : str) :
  List.firstn (List.length pre) (pre ++ run) = pre.
Proof.
  rewrite firstn_app, Nat.sub_diag, firstn_all. simpl. apply app_nil_r.
Qed.

Lemma skipn_length_app (pre run : str) :
  List.skipn (List.length pre) (pre ++ run) = run.
Proof.
  rewrite skipn_app, Nat.sub_diag, skipn_all. reflexivity.
Qed.

(** What [negate] does in terms of the trailing run. *)
Lemma negate_on_run (self : Calculator) (pre run : str) :
  expr self = pre ++ run -> trailing_run rt pre run ->
  negate rt self =
    match run with
    | [] => self
    | _ :: _ =>
        match float_of_text rt run with
        | None => self
        | Some val =>
            _update_display (set_expr self (pre ++ render rt (fneg val)))
        end
    end.
Proof.
  intros He Hrun. unfold negate.
  rewrite He, (number_start_app _ _ Hrun), skipn_length_app, firstn_length_app.
  destruct run as [|c run].
  - destruct (is_empty (pre ++ [])); reflexivity.
  - replace (is_empty (pre ++ c :: run)) with false by (destruct pre; reflexivity).
    reflexivity.
Qed.

(** The same for [percent]. *)
Lemma percent_on_run (self : Calculator) (pre run : str) :
  expr self = pre ++ run -> trailing_run rt pre run ->
  percent rt self =
    match run with
    | [] => self
    | _ :: _ =>
        match float_of_text rt run with
        | None => self
        | Some val =>
            _update_display (set_expr self (pre ++ render rt (fdiv val hundred)))
        end
    end.
Proof.
  intros He Hrun. unfold percent.
  rewrite He, (number_start_app _ _ Hrun), skipn_length_app, firstn_length_app.
  destruct run as [|c run].
  - destruct (is_empty (pre ++ [])); reflexivity.
  - replace (is_empty (pre ++ c :: run)) with false by (destruct pre; reflexivity).
    reflexivity.
Qed.

End Scan.

(** C7.  [negate] works on the maximal trailing run of digits, points and
    exponent markers: with an empty run, or one that [float()] rejects, it
    changes nothing; otherwise the run is replaced by the rendering of the
    negated value (the integer text when the value is integral, the float
    text otherwise) and the text before the run stays.  On ["12+5"] the
    result is ["12+-5"]. *)
Theorem negate_trailing_number (rt : Runtime) (self : Calculator) :
  (exists pre run,
     expr self = pre ++ run /\ trailing_run rt pre run /\
     (run = [] -> negate rt self = self) /\
     (float_of_text rt run = None -> negate rt self = self) /\
     (forall val, run <> [] -> float_of_text rt run = Some val ->
        expr (negate rt self) =
          pre ++ (if is_integer (fneg val) then str_int (trunc (fneg val))
                  else str_float rt (fneg val)))) /\
  (expr self = u "12+5" -> expr (negate rt self) = u "12+-5").
Proof.
  split.
  - destruct (trailing_run_exists rt (expr self)) as (pre & run & He & Hrun).
    exists pre, run. split; [exact He|]. split; [exact Hrun|].
    rewrite (negate_on_run rt self pre run He Hrun).
    repeat split.
    + intros ->. reflexivity.
    + intros ->. destruct run; reflexivity.
    + intros val Hne ->. destruct run; [congruence | reflexivity].
  - intros He.
    assert (Hrun : trailing_run rt (u "12+") (u "5")).
    { split.
      - repeat constructor.
      - intros pre' c H. apply (app_inj_tail (u "12") pre' 43 c) in H as [_ <-].
        rewrite <- in_number_iff. vm_compute. discriminate. }
    rewrite (negate_on_run rt self (u "12+") (u "5") He Hrun).
    vm_compute. reflexivity.
Qed.

Lemma negate_trailing_number_witness :
  expr (Example.with_buffer (u "12+5")) = u "12+5" /\
  expr (negate Example.runtime (Example.with_buffer (u "12+5"))) = u "12+-5".
Proof.
  assert (H : expr (Example.with_buffer (u "12+5")) = u "12+5")
    by (vm_compute; reflexivity).
  split; [exact H|].
  exact (proj2 (negate_trailing_number Example.runtime
                  (Example.with_buffer (u "12+5"))) H).
Defined.

(** ** Facts about binary64 rounding *)

(** [SpecFloat] is written with the arithmetic of the core library; the
    lemmas of the Standard Library are about its own copies of the same
    functions. *)
Ltac std_arith :=
  change IntDef.Z.add with Z.add in *;
  change IntDef.Z.sub with Z.sub in *;
  change IntDef.Z.mul with Z.mul in *;
  change IntDef.Z.opp with Z.opp in *;
  change IntDef.Z.max with Z.max in *;
  change IntDef.Z.min with Z.min in *;
  change IntDef.Z.leb with Z.leb in *;
  change IntDef.Z.eqb with Z.eqb in *;
  change IntDef.Z.even with Z.even in *;
  change IntDef.Z.compare with Z.compare in *;
  change PosDef.Pos.succ with Pos.succ in *;
  change PosDef.Pos.iter with Pos.iter in *;
  change PosDef.Pos.compare_cont with Pos.compare_cont in *.

Section FloatFacts.
Local Open Scope Z_scope.

Lemma digits2_pos_size (p : positive) : digits2_pos p = Pos.size p.
Proof. induction p; simpl; congruence. Qed.

Lemma digits2_pos_log2 (p : positive) :
  Zpos (digits2_pos p) = Z.log2 (Zpos p) + 1.
Proof.
  rewrite digits2_pos_size. destruct p; simpl; rewrite ?Pos2Z.inj_succ; lia.
Qed.

Lemma digits2_pos_bounds (p : positive) :
  2 ^ (Zpos (digits2_pos p) - 1) <= Zpos p < 2 ^ Zpos (digits2_pos p).
Proof.
  rewrite digits2_pos_log2.
  replace (Z.log2 (Zpos p) + 1 - 1) with (Z.log2 (Zpos p)) by lia.
  replace (Z.log2 (Zpos p) + 1) with (Z.succ (Z.log2 (Zpos p))) by lia.
  apply Z.log2_spec. lia.
Qed.

Lemma iter_xO_value (k p : positive) :
  Zpos (Pos.iter xO p k) = Zpos p * 2 ^ Zpos k.
Proof.
  induction k as [|k IH] using Pos.peano_ind.
  - simpl. lia.
  - rewrite Pos.iter_succ, Pos2Z.inj_xO, IH, Pos2Z.inj_succ, Z.pow_succ_r; lia.
Qed.

(** Aligning to a lower exponent keeps the value. *)
Lemma shl_align_value (m : positive) (e e' : Z) :
  e' <= e ->
  snd (shl_align m e e') = e' /\
  Zpos (fst (shl_align m e e')) = Zpos m * 2 ^ (e - e').
Proof.
  intros He. unfold shl_align.
  destruct (e' - e) as [|d|d] eqn:Hd; simpl.
  - replace (e - e') with 0 by lia. rewrite Z.pow_0_r. lia.
  - lia.
  - rewrite iter_xO_value. split; [reflexivity|].
    replace (e - e') with (Zpos d) by lia. reflexivity.
Qed.

Lemma shl_align_above (m : positive) (e e' : Z) :
  e <= e' -> shl_align m e e' = (m, e).
Proof.
  intros He. unfold shl_align. destruct (e' - e) eqn:Hd; try reflexivity. lia.
Qed.

Lemma shr_1_m (mrs : shr_record) :
  0 <= shr_m mrs -> shr_m (shr_1 mrs) = shr_m mrs / 2.
Proof.
  destruct mrs as [m r s]. simpl. intros Hm.
  destruct m as [|p|p]; [reflexivity| |lia].
  destruct p as [p|p|]; simpl shr_m.
  - rewrite Pos2Z.inj_xI. apply Z.div_unique with (r := 1); lia.
  - rewrite Pos2Z.inj_xO. apply Z.div_unique with (r := 0); lia.
  - reflexivity.
Qed.

Lemma iter_shr_1_m (n : positive) :
  forall mrs, 0 <= shr_m mrs ->
    shr_m (iter_pos shr_1 n mrs) = shr_m mrs / 2 ^ Zpos n.
Proof.
  assert (Hnn : forall a b, 0 <= a -> 0 < b -> 0 <= a / b).
  { intros. apply Z.div_pos; lia. }
  assert (Hpow : 0 < 2 ^ Zpos n) by (apply Z.pow_pos_nonneg; lia).
  induction n as [n IH|n IH|]; intros mrs Hm; simpl iter_pos.
  - assert (Hp : 0 < 2 ^ Zpos n) by (apply Z.pow_pos_nonneg; lia).
    specialize (IH Hp).
    pose proof (shr_1_m mrs Hm) as H1.
    assert (H1' : 0 <= shr_m (shr_1 mrs)) by (rewrite H1; apply Hnn; lia).
    pose proof (IH _ H1') as H2.
    assert (H2' : 0 <= shr_m (iter_pos shr_1 n (shr_1 mrs)))
      by (rewrite H2; apply Hnn; lia).
    rewrite (IH _ H2'), H2, H1.
    rewrite !Z.div_div by lia. f_equal.
    replace (Zpos n~1) with (1 + Zpos n + Zpos n) by lia.
    rewrite !Z.pow_add_r by lia. change (2 ^ 1) with 2. lia.
  - assert (Hp : 0 < 2 ^ Zpos n) by (apply Z.pow_pos_nonneg; lia).
    specialize (IH Hp).
    pose proof (IH _ Hm) as H2.
    assert (H2' : 0 <= shr_m (iter_pos shr_1 n mrs))
      by (rewrite H2; apply Hnn; lia).
    rewrite (IH _ H2'), H2.
    rewrite !Z.div_div by lia. f_equal.
    replace (Zpos n~0) with (Zpos n + Zpos n) by lia.
    rewrite Z.pow_add_r by lia. reflexivity.
  - rewrite shr_1_m by assumption. reflexivity.
Qed.

Lemma shr_m_nonneg (mrs : shr_record) (e n : Z) :
  0 <= shr_m mrs ->
  shr_m (fst (shr mrs e n)) = (if 0 <? n then shr_m mrs / 2 ^ n else shr_m mrs) /\
  snd (shr mrs e n) = (if 0 <? n then e + n else e).
Proof.
  intros Hm. unfold shr. destruct n; simpl; auto.
  split; [|reflexivity]. now apply iter_shr_1_m.
Qed.

Lemma shr_record_of_loc_m (m : Z) (l : location) :
  shr_m (shr_record_of_loc m l) = m.
Proof. destruct l as [|[]]; reflexivity. Qed.

Lemma round_nearest_even_bounds (m : Z) (l : location) :
  m <= round_nearest_even m l <= m + 1.
Proof.
  unfold round_nearest_even. destruct l as [|[]]; try lia.
  destruct (Z.even m); lia.
Qed.

Lemma if_div_nonneg (b : bool) (m n : Z) :
  0 <= m -> 0 <= (if b then m / 2 ^ n else m).
Proof.
  intros Hm. destruct b; [|exact Hm].
  destruct (Z.le_gt_cases 0 n).
  - apply Z.div_pos; [lia|]. apply Z.pow_pos_nonneg; lia.
  - rewrite Z.pow_neg_r by lia. now rewrite Z.div_0_r.
Qed.

(** Rounding a non-negative mantissa gives a zero, a finite float or an
    infinity of the requested sign, never a NaN. *)
Lemma binary_round_aux_sign (sx : bool) (mx ex : Z) (lx : location) :
  0 <= mx -> sign_bit (binary_round_aux prec emax sx mx ex lx) = Some sx.
Proof.
  intros Hm. unfold binary_round_aux.
  destruct (shr_fexp prec emax mx ex lx) as [mrs' e'] eqn:H1.
  assert (Hm1 : 0 <= shr_m mrs').
  { unfold shr_fexp in H1.
    pose proof (shr_m_nonneg (shr_record_of_loc mx lx) ex
                  (fexp prec emax (Zdigits2 mx + ex) - ex)) as [Hs _].
    { now rewrite shr_record_of_loc_m. }
    rewrite H1, shr_record_of_loc_m in Hs. simpl in Hs. rewrite Hs.
    apply if_div_nonneg; lia. }
  set (m2 := round_nearest_even (shr_m mrs') (loc_of_shr_record mrs')).
  assert (Hm2 : 0 <= m2).
  { pose proof (round_nearest_even_bounds (shr_m mrs') (loc_of_shr_record mrs')).
    unfold m2. lia. }
  destruct (shr_fexp prec emax m2 e' loc_Exact) as [mrs'' e''] eqn:H2.
  assert (Hm3 : 0 <= shr_m mrs'').
  { unfold shr_fexp in H2.
    pose proof (shr_m_nonneg (shr_record_of_loc m2 loc_Exact) e'
                  (fexp prec emax (Zdigits2 m2 + e') - e')) as [Hs _].
    { now rewrite shr_record_of_loc_m. }
    rewrite H2, shr_record_of_loc_m in Hs. simpl in Hs. rewrite Hs.
    apply if_div_nonneg; lia. }
  destruct (shr_m mrs''); [reflexivity | | lia].
  destruct (_ <=? _); reflexivity.
Qed.

Lemma fexp_small (d : Z) : -1021 <= d <= 53 -> fexp prec emax d = d - 53.
Proof. unfold fexp, emin, prec, emax. lia. Qed.

Lemma fexp_large (d : Z) : -1021 <= d -> fexp prec emax d = d - 53.
Proof. unfold fexp, emin, prec, emax. lia. Qed.

Lemma fexp_ge_emin (d : Z) : -1074 <= fexp prec emax d.
Proof. unfold fexp, emin, prec, emax. lia. Qed.

Lemma digits2_pos_mul_pow2 (p q : positive) (k : Z) :
  0 <= k -> Zpos q = Zpos p * 2 ^ k ->
  Zpos (digits2_pos q) = Zpos (digits2_pos p) + k.
Proof.
  intros Hk Hq. rewrite !digits2_pos_log2, Hq.
  rewrite Z.log2_mul_pow2 by lia. lia.
Qed.

(** A mantissa that is already in canonical position is kept as it is. *)
Lemma binary_round_aux_canonical (s : bool) (m : positive) (e : Z) :
  fexp prec emax (Zpos (digits2_pos m) + e) = e -> e <= emax - prec ->
  binary_round_aux prec emax s (Zpos m) e loc_Exact = S754_finite s m e.
Proof.
  intros Hc He. unfold binary_round_aux, shr_fexp. simpl Zdigits2. std_arith.
  rewrite Hc, Z.sub_diag.
  cbn [shr shr_record_of_loc loc_of_shr_record shr_m round_nearest_even Zdigits2].
  rewrite Hc, Z.sub_diag.
  cbn [shr shr_record_of_loc shr_m].
  destruct (Z.leb_spec e (emax - prec)); [reflexivity | lia].
Qed.

Lemma digits2_pos_le_53 (p : positive) :
  Zpos p < 2 ^ 53 -> Zpos (digits2_pos p) <= 53.
Proof.
  intros Hp. pose proof (digits2_pos_bounds p) as [Hlo _].
  destruct (Z.le_gt_cases (Zpos (digits2_pos p)) 53) as [|Hgt]; [assumption|].
  exfalso. assert (2 ^ 53 <= 2 ^ (Zpos (digits2_pos p) - 1))
    by (apply Z.pow_le_mono_r; lia). lia.
Qed.

Lemma digits2_pos_53 (m : positive) :
  2 ^ 52 <= Zpos m < 2 ^ 53 -> Zpos (digits2_pos m) = 53.
Proof.
  intros Hm. rewrite digits2_pos_log2.
  rewrite (Z.log2_unique (Zpos m) 52); [reflexivity | lia | exact Hm].
Qed.

(** What a valid finite float satisfies. *)
Lemma bounded_iff (m : positive) (e : Z) :
  bounded prec emax m e = true <->
  fexp prec emax (Zpos (digits2_pos m) + e) = e /\ e <= 971.
Proof.
  unfold bounded, canonical_mantissa. std_arith.
  rewrite andb_true_iff, Z.eqb_eq, Z.leb_le. unfold emax, prec. lia.
Qed.


(** Rounding is exact on a number that needs at most 53 bits above the
    smallest exponent. *)
Lemma binary_round_exact (s : bool) (p : positive) (e : Z) :
  Zpos (digits2_pos p) <= 53 -> -1074 <= e -> e <= 971 ->
  exists m e',
    binary_round prec emax s p e = S754_finite s m e' /\
    e' <= e /\ Zpos m = Zpos p * 2 ^ (e - e') /\
    bounded prec emax m e' = true.
Proof.
  intros Hd Hlo Hhi. unfold binary_round. std_arith.
  set (fe := fexp prec emax (Zpos (digits2_pos p) + e)).
  assert (Hfe : fe <= e /\ -1074 <= fe).
  { unfold fe, fexp, emin, prec, emax. lia. }
  destruct (shl_align_value p e fe) as [H1 H2]; [lia|].
  destruct (shl_align p e fe) as [mz ez]. simpl in H1, H2. subst ez.
  assert (Hcanon : fexp prec emax (Zpos (digits2_pos mz) + fe) = fe).
  { rewrite (digits2_pos_mul_pow2 p mz (e - fe)) by (lia || exact H2).
    replace (Zpos (digits2_pos p) + (e - fe) + fe)
      with (Zpos (digits2_pos p) + e) by lia.
    reflexivity. }
  exists mz, fe. repeat split; [|lia | exact H2 |].
  - apply binary_round_aux_canonical; [exact Hcanon | unfold emax, prec; lia].
  - apply bounded_iff. split; [exact Hcanon | lia].
Qed.

Lemma shift_keeps_top (m : positive) :
  53 <= Zpos (digits2_pos m) ->
  2 ^ 52 <= Zpos m / 2 ^ (Zpos (digits2_pos m) - 53) < 2 ^ 53.
Proof.
  intros Hd. pose proof (digits2_pos_bounds m) as [Hlo Hhi].
  assert (Hp : 0 < 2 ^ (Zpos (digits2_pos m) - 53)) by (apply Z.pow_pos_nonneg; lia).
  split.
  - apply Z.div_le_lower_bound; [exact Hp|].
    rewrite <- Z.pow_add_r by lia.
    replace (Zpos (digits2_pos m) - 53 + 52) with (Zpos (digits2_pos m) - 1) by lia.
    exact Hlo.
  - apply Z.div_lt_upper_bound; [exact Hp|].
    rewrite <- Z.pow_add_r by lia.
    replace (Zpos (digits2_pos m) - 53 + 53) with (Zpos (digits2_pos m)) by lia.
    exact Hhi.
Qed.

(** One shift of [binary_round_aux] on a mantissa of at least 53 bits at a
    non-negative exponent leaves exactly 53 bits. *)
Lemma shr_fexp_top (m : positive) (e : Z) (l : location) :
  53 <= Zpos (digits2_pos m) -> 0 <= e ->
  2 ^ 52 <= shr_m (fst (shr_fexp prec emax (Zpos m) e l)) < 2 ^ 53 /\
  snd (shr_fexp prec emax (Zpos m) e l) = e + (Zpos (digits2_pos m) - 53).
Proof.
  intros Hd He. unfold shr_fexp. simpl Zdigits2. std_arith.
  rewrite fexp_large by lia.
  destruct (shr_m_nonneg (shr_record_of_loc (Zpos m) l) e
              (Zpos (digits2_pos m) + e - 53 - e)) as [H1 H2].
  { rewrite shr_record_of_loc_m. lia. }
  rewrite H1, H2, shr_record_of_loc_m.
  replace (Zpos (digits2_pos m) + e - 53 - e) with (Zpos (digits2_pos m) - 53) by lia.
  destruct (Z.ltb_spec 0 (Zpos (digits2_pos m) - 53)).
  - split; [now apply shift_keeps_top | lia].
  - pose proof (digits2_pos_bounds m) as Hb.
    replace (Zpos (digits2_pos m)) with 53 in Hb by lia. 
    split; [exact Hb | lia].
Qed.

(** Rounding an integer of more than 53 bits gives an infinity or a valid
    finite float with a non-negative exponent, never a zero. *)
Lemma binary_round_large (s : bool) (p : positive) :
  53 < Zpos (digits2_pos p) ->
  binary_round prec emax s p 0 = S754_infinity s \/
  exists m e, binary_round prec emax s p 0 = S754_finite s m e /\ 0 <= e /\
              bounded prec emax m e = true.
Proof.
  intros Hd. unfold binary_round. std_arith.
  rewrite shl_align_above by (rewrite fexp_large; lia).
  unfold binary_round_aux.
  pose proof (shr_fexp_top p 0 loc_Exact) as [H1 H1e]; [lia | lia |].
  destruct (shr_fexp prec emax (Zpos p) 0 loc_Exact) as [mrs' e'].
  simpl fst in H1. simpl snd in H1e.
  pose proof (round_nearest_even_bounds (shr_m mrs') (loc_of_shr_record mrs')) as Hr.
  set (m2 := round_nearest_even (shr_m mrs') (loc_of_shr_record mrs')) in *.
  assert (Hm2 : 2 ^ 52 <= m2) by lia.
  destruct m2 as [|q|q] eqn:Hq; [simpl in Hm2; lia | | lia].
  assert (Hdq : 53 <= Zpos (digits2_pos q)).
  { pose proof (digits2_pos_bounds q) as [_ Hhi].
    destruct (Z.lt_ge_cases (Zpos (digits2_pos q)) 53) as [Hlt|]; [|assumption].
    exfalso. assert (2 ^ Zpos (digits2_pos q) <= 2 ^ 52)
      by (apply Z.pow_le_mono_r; lia). lia. }
  pose proof (shr_fexp_top q e' loc_Exact Hdq) as [H2 H2e]; [lia|].
  destruct (shr_fexp prec emax (Zpos q) e' loc_Exact) as [mrs'' e''].
  simpl fst in H2. simpl snd in H2e.
  destruct (shr_m mrs'') as [|m3|m3] eqn:Hm3; [simpl in H2; lia | | lia].
  destruct (Z.leb_spec e'' (emax - prec)) as [Hle|]; [right | left; reflexivity].
  exists m3, e''. split; [reflexivity|]. split; [lia|].
  apply bounded_iff. rewrite (digits2_pos_53 m3 H2).
  rewrite fexp_large by lia. unfold emax, prec in Hle. lia.
Qed.

(** Rounding an integer: an infinity, or a valid finite float that holds
    an integer other than zero. *)
Lemma binary_round_integer (s : bool) (p : positive) :
  binary_round prec emax s p 0 = S754_infinity s \/
  exists m e,
    binary_round prec emax s p 0 = S754_finite s m e /\
    bounded prec emax m e = true /\
    (0 <= e \/ (e < 0 /\ Zpos m = Zpos p * 2 ^ (- e))).
Proof.
  destruct (Z.le_gt_cases (Zpos (digits2_pos p)) 53) as [Hd|Hd].
  - right. destruct (binary_round_exact s p 0 Hd) as (m & e & H1 & H2 & H3 & H4);
      [lia | lia |].
    exists m, e. split; [exact H1|]. split; [exact H4|].
    destruct (Z.eq_dec e 0); [left; lia | right; split; [lia | exact H3]].
  - destruct (binary_round_large s p) as [H|(m & e & H1 & H2 & H3)]; [lia | now left |].
    right. exists m, e. auto.
Qed.

Lemma binary_round_sign (s : bool) (p : positive) (e : Z) :
  sign_bit (binary_round prec emax s p e) = Some s.
Proof.
  unfold binary_round. destruct (shl_align _ _ _) as [mz ez].
  apply binary_round_aux_sign. lia.
Qed.

Lemma is_integer_finite (s : bool) (m p : positive) (e : Z) :
  0 <= e \/ (e < 0 /\ Zpos m = Zpos p * 2 ^ (- e)) ->
  is_integer (S754_finite s m e) = true /\
  trunc (S754_finite s m e) = cond_Zopp s (trunc (S754_finite false m e)) /\
  0 < trunc (S754_finite false m e).
Proof.
  intros H. unfold is_integer, trunc. simpl cond_Zopp at 2.
  destruct H as [He|[He Hm]].
  - destruct (Z.leb_spec 0 e); [|lia].
    split; [reflexivity|]. split; [reflexivity|].
    apply Z.mul_pos_pos; [lia | apply Z.pow_pos_nonneg; lia].
  - destruct (Z.leb_spec 0 e); [lia|].
    assert (Hp : 0 < 2 ^ (- e)) by (apply Z.pow_pos_nonneg; lia).
    rewrite Hm, Z.mod_mul, Z.div_mul by lia. simpl.
    split; [reflexivity|]. split; [reflexivity | lia].
Qed.

(** ** The sign of a float remainder *)




Lemma binary_normalize_sign (m e : Z) (szero : bool) :
  sign_bit (binary_normalize prec emax m e szero)
  = Some (match m with Z0 => szero | Zpos _ => false | Zneg _ => true end).
Proof. destruct m; simpl; [reflexivity | |]; apply binary_round_sign. Qed.



(** ** Conversions of operands *)





(** ** Modulo *)




(** ** Exponentiation *)







End FloatFacts.

(** ** Negating after a minus sign *)

Section NegateTwice.
Variable rt : Runtime.

Lemma ascii_digit_numeric (c : char) : ascii_digit c -> numeric_char rt c.
Proof.
  unfold ascii_digit, numeric_char, isdigit. intros [Hlo Hhi]. left.
  destruct (N.ltb_spec c 128); [|lia].
  apply andb_true_iff. split; apply N.leb_le; assumption.
Qed.

Lemma minus_not_numeric : ~ numeric_char rt 45.
Proof. unfold numeric_char, isdigit. simpl. intuition discriminate. Qed.

Lemma read_digits_all (ds : str) :
  Forall ascii_digit ds ->
  forall acc count,
    read_digits rt ds acc count
    = (List.fold_left (fun a c => a * 10 + (c - 48)) ds acc,
       (count + List.length ds)%nat, []).
Proof.
  induction 1 as [|c ds [Hlo Hhi] _ IH]; intros acc count; simpl.
  - now rewrite Nat.add_0_r.
  - unfold decimal_digit.
    destruct (N.ltb_spec c 128); [|lia].
    destruct (N.leb_spec 48 c); [|lia]. destruct (N.leb_spec c 57); [|lia].
    simpl. rewrite IH. f_equal. f_equal. lia.
Qed.

(** [float()] of a text of ASCII digits is the nearest float to the
    number it denotes. *)
Lemma float_of_digits (ds : str) :
  ds <> [] -> Forall ascii_digit ds ->
  float_of_text rt ds = Some (round_Z (Z.of_N (digits_value ds))).
Proof.
  intros Hne Hds. unfold float_of_text. rewrite (read_digits_all ds Hds).
  fold (digits_value ds). simpl.
  destruct ds as [|c ds]; [congruence|]. simpl List.length.
  rewrite Nat.add_0_r. simpl Nat.eqb. cbv iota.
  unfold round_decimal. simpl. now rewrite Z.mul_1_r.
Qed.

(** The rendering of the negation of a rounded positive integer starts
    with a minus sign. *)
Lemma render_negated_positive (p : positive) :
  exists rest, render rt (fneg (round_Z (Zpos p))) = 45 :: rest.
Proof.
  unfold round_Z, binary_normalize.
  destruct (binary_round_integer false p) as [H|(m & e & H & _ & Hv)]; rewrite H.
  - exists (u "inf"). reflexivity.
  - destruct (is_integer_finite true m p e Hv) as (Hi & Ht & Hpos).
    unfold render. simpl fneg. rewrite Hi, Ht.
    destruct (trunc (S754_finite false m e)) as [|q|q]; try lia.
    simpl. eexists. reflexivity.
Qed.

Lemma negate_keeps_two_minus (self : Calculator) (rest : str) :
  expr self = 45 :: 45 :: rest ->
  exists rest', expr (negate rt self) = 45 :: 45 :: rest'.
Proof.
  intros He.
  destruct (trailing_run_exists rt (expr self)) as (pre & run & Hpr & Hrun).
  rewrite (negate_on_run rt self pre run Hpr Hrun).
  assert (Hpre : exists pre', pre = 45 :: 45 :: pre').
  { destruct Hrun as [Hall _]. rewrite He in Hpr.
    destruct pre as [|a [|b pre']]; simpl in Hpr.
    - subst run. inversion Hall as [|? ? Hm _]. now apply minus_not_numeric in Hm.
    - injection Hpr as <- <-. inversion Hall as [|? ? Hm _].
      now apply minus_not_numeric in Hm.
    - injection Hpr as <- <- _. eauto. }
  destruct Hpre as (pre' & ->).
  destruct run as [|c run]; [eauto|].
  destruct (float_of_text rt (c :: run)); [|eauto].
  simpl. eauto.
Qed.

End NegateTwice.

(** C10 as stated fails: after a minus sign, a run of zeros is replaced by
    a single zero and no second minus sign appears. *)
Lemma negate_after_minus_zero :
  ~ (exists rt rest,
       expr (negate rt (Example.with_buffer (u "-0"))) = 45 :: 45 :: rest).
Proof. intros (rt & rest & H). vm_compute in H. discriminate. Qed.

(** C10, amended.  On a buffer made of a minus sign and a non-empty run of
    ASCII digits, [negate] leaves the minus sign out of the number.  When
    the digits denote zero the buffer becomes ["-0"].  Otherwise the run is
    replaced by the rendering of the negated value, which starts with a
    minus sign of its own, so the buffer starts with two minus signs and a
    second [negate] does not give the first buffer back; ["-5"] becomes
    ["--5"]. *)
Theorem negate_after_minus (rt : Runtime) (self : Calculator) (ds : str) :
  ds <> [] -> Forall ascii_digit ds -> expr self = 45 :: ds ->
  expr (negate rt self)
  = 45 :: render rt (fneg (round_Z (Z.of_N (digits_value ds)))) /\
  (digits_value ds = 0 -> expr (negate rt self) = u "-0") /\
  (digits_value ds <> 0 ->
   (exists rest, expr (negate rt self) = 45 :: 45 :: rest) /\
   expr (negate rt (negate rt self)) <> expr self) /\
  (ds = u "5" -> expr (negate rt self) = u "--5").
Proof.
  intros Hne Hds He.
  assert (Hrun : trailing_run rt [45] ds).
  { split.
    - eapply Forall_impl; [|exact Hds]. apply ascii_digit_numeric.
    - intros pre' c H. destruct pre' as [|a [|b pre']]; try discriminate.
      injection H as <-. apply minus_not_numeric. }
  assert (Hneg : expr (negate rt self)
                 = 45 :: render rt (fneg (round_Z (Z.of_N (digits_value ds))))).
  { rewrite (negate_on_run rt self [45] ds He Hrun), (float_of_digits rt ds Hne Hds).
    destruct ds; [congruence | reflexivity]. }
  split; [exact Hneg|]. split; [|split].
  - intros Hz. rewrite Hneg, Hz. reflexivity.
  - intros Hnz.
    assert (Htwo : exists rest, expr (negate rt self) = 45 :: 45 :: rest).
    { rewrite Hneg. destruct (digits_value ds) as [|p]; [congruence|].
      change (Z.of_N (Npos p)) with (Zpos p).
      destruct (render_negated_positive rt p) as (rest & ->). eauto. }
    split; [exact Htwo|].
    destruct Htwo as (rest & Htwo).
    destruct (negate_keeps_two_minus rt (negate rt self) rest Htwo) as (rest' & ->).
    rewrite He. destruct ds as [|d ds]; [congruence|].
    inversion Hds as [|? ? [Hlo Hhi] _]. subst.
    intros H. injection H as H _. subst d. lia.
  - intros ->. rewrite Hneg. vm_compute. reflexivity.
Qed.

Lemma negate_after_minus_witness :
  expr (negate Example.runtime (Example.with_buffer (u "-5"))) = u "--5" /\
  expr (negate Example.runtime (Example.with_buffer (u "-007"))) = u "--7" /\
  expr (negate Example.runtime (Example.with_buffer (u "-00"))) = u "-0".
Proof.
  assert (H5 : Forall ascii_digit (u "5")) by (repeat constructor; vm_compute; discriminate).
  assert (H7 : Forall ascii_digit (u "007")) by (repeat constructor; vm_compute; discriminate).
  assert (H0 : Forall ascii_digit (u "00")) by (repeat constructor; vm_compute; discriminate).
  split; [|split].
  - apply (negate_after_minus Example.runtime (Example.with_buffer (u "-5")) (u "5"));
      [discriminate | exact H5 | reflexivity | reflexivity].
  - destruct (negate_after_minus Example.runtime (Example.with_buffer (u "-007")) (u "007"))
      as (H & _); [discriminate | exact H7 | reflexivity |].
    rewrite H. vm_compute. reflexivity.
  - apply (negate_after_minus Example.runtime (Example.with_buffer (u "-00")) (u "00"));
      [discriminate | exact H0 | reflexivity | reflexivity].
Defined.

(** ** Constructs outside the whitelist *)

Section Whitelist.
Variable rt : Runtime.

Lemma int_to_float_error (z : Z) (e : exn) :
  int_to_float z = Raise e -> arithmetic_error e.
Proof.
  unfold int_to_float, arithmetic_error.
  destruct (is_inf (round_Z z)); intros H; inversion H; auto.
Qed.

Lemma to_float_error (v : value) (e : exn) :
  to_float v = Raise e -> arithmetic_error e.
Proof.
  destruct v; simpl; try apply int_to_float_error.
  - discriminate.
  - unfold arithmetic_error. intros H. inversion H. auto.
Qed.

Lemma to_complex_error (v : value) (e : exn) :
  to_complex v = Raise e -> arithmetic_error e.
Proof.
  destruct v; simpl; try discriminate;
    unfold bind; destruct (int_to_float _) eqn:E; try discriminate;
    intros H; inversion H; subst; eapply int_to_float_error; eassumption.
Qed.

Lemma bind_error {A B : Type} (r : result A) (k : A -> result B) (e : exn) :
  bind r k = Raise e ->
  r = Raise e \/ exists a, r = Ok a /\ k a = Raise e.
Proof.
  destruct r; simpl; intros H; [right; eauto | left; now inversion H].
Qed.

Lemma coerce_error (l r : value) (e : exn) :
  coerce l r = Raise e -> arithmetic_error e.
Proof.
  intros H.
  assert (Hc : (a <- to_complex l ;; b <- to_complex r ;; Ok (ComplexComplex a b)) = Raise e
               -> arithmetic_error e).
  { intros Hb. apply bind_error in Hb as [Hb|(a & _ & Hb)];
      [now apply to_complex_error in Hb|].
    apply bind_error in Hb as [Hb|(b & _ & Hb)];
      [now apply to_complex_error in Hb | discriminate]. }
  assert (Hf : (a <- to_float l ;; b <- to_float r ;; Ok (FloatFloat a b)) = Raise e
               -> arithmetic_error e).
  { intros Hb. apply bind_error in Hb as [Hb|(a & _ & Hb)];
      [now apply to_float_error in Hb|].
    apply bind_error in Hb as [Hb|(b & _ & Hb)];
      [now apply to_float_error in Hb | discriminate]. }
  destruct l, r; unfold coerce in H; auto; discriminate.
Qed.

Lemma complex_op_error (op : operator) (a b : complex) (e : exn) :
  complex_op rt op a b = Raise e -> arithmetic_error e.
Proof.
  unfold complex_op, arithmetic_error.
  destruct (complex_binop rt op a b); intros H; inversion H; auto.
Qed.

Ltac split_matches H :=
  repeat match type of H with
         | context [if ?c then _ else _] => destruct c
         end.

Lemma float_pow_error (iv iw : float) (e : exn) :
  float_pow rt iv iw = Raise e -> arithmetic_error e.
Proof.
  unfold float_pow. intros H. split_matches H;
    try discriminate; try (now apply complex_op_error in H);
    inversion H; unfold arithmetic_error; auto.
Qed.

Lemma float_rem_error (vx wx : float) (e : exn) :
  float_rem vx wx = Raise e -> arithmetic_error e.
Proof.
  unfold float_rem. intros H. split_matches H; try discriminate.
  inversion H. unfold arithmetic_error. auto.
Qed.

Lemma float_floor_div_error (vx wx : float) (e : exn) :
  float_floor_div vx wx = Raise e -> arithmetic_error e.
Proof.
  unfold float_floor_div. intros H.
  destruct (is_zero wx); [inversion H; unfold arithmetic_error; auto|].
  destruct (is_zero _); discriminate.
Qed.

(** The functions of the table raise arithmetic errors only. *)
Lemma call2_error (f : pyfunc) (l r : value) (e : exn) :
  call2 rt f l r = Raise e -> arithmetic_error e.
Proof.
  assert (Hty : arithmetic_error TypeError) by (unfold arithmetic_error; auto).
  assert (Hzd : arithmetic_error ZeroDivisionError) by (unfold arithmetic_error; auto).
  assert (Hov : arithmetic_error OverflowError) by (unfold arithmetic_error; auto).
  destruct f; simpl; intros H; try (inversion H; subst; assumption);
    unfold py_add, py_sub, py_mul, py_truediv, py_mod, py_pow, py_floordiv in H;
    apply bind_error in H as [H|(ops & _ & H)];
    try (now apply coerce_error in H);
    destruct ops as [a b|a b|a b];
    try discriminate;
    try (now apply complex_op_error in H);
    try (now apply float_pow_error in H);
    try (now apply float_rem_error in H);
    try (now apply float_floor_div_error in H);
    try (inversion H; subst; assumption).
  - destruct (Z.eqb b 0); [inversion H; subst; assumption|].
    destruct (is_inf _); [inversion H; subst; assumption | discriminate].
  - destruct (is_zero b); [inversion H; subst; assumption | discriminate].
  - destruct (Z.eqb b 0); [inversion H; subst; assumption | discriminate].
  - destruct (Z.ltb b 0); [|discriminate].
    apply bind_error in H as [H|(x & _ & H)]; [now apply int_to_float_error in H|].
    apply bind_error in H as [H|(y & _ & H)]; [now apply int_to_float_error in H|].
    now apply float_pow_error in H.
  - destruct (Z.eqb b 0); [inversion H; subst; assumption | discriminate].
Qed.

Lemma call1_error (f : pyfunc) (x : value) (e : exn) :
  call1 f x = Raise e -> arithmetic_error e.
Proof.
  destruct f; simpl; intros H; try (inversion H; unfold arithmetic_error; now auto).
  - destruct x as [| | |[re im]]; discriminate.
  - destruct x; discriminate.
Qed.

Lemma allowed_binary_table (op : operator) :
  allowed_binary op = true <-> exists f, ALLOWED_OPERATORS (BinClass op) = Some f.
Proof.
  destruct op; simpl; split; intros H; try discriminate; eauto;
    destruct H as [f H]; discriminate.
Qed.

Lemma allowed_unary_table (op : unaryop) :
  allowed_unary op = true <-> exists f, ALLOWED_OPERATORS (UnClass op) = Some f.
Proof.
  destruct op; simpl; split; intros H; try discriminate; eauto;
    destruct H as [f H]; discriminate.
Qed.

Lemma disallowed_ValueError (msg : string) :
  disallowed_message msg -> disallowed_construct (ValueError msg).
Proof. intros H. exists msg. auto. Qed.

(** A tree inside the whitelist fails with arithmetic errors only. *)
Lemma _eval_clean (nd : node) (e : exn) :
  has_disallowed nd = false -> _eval rt nd = Raise e -> arithmetic_error e.
Proof.
  revert e.
  induction nd as [body IH|k|l IHl op r IHr|op x IH|f args|id|name];
    intros e Hd H; try discriminate.
  - simpl in *. auto.
  - destruct k; discriminate.
  - cbn [has_disallowed] in Hd.
    apply orb_false_iff in Hd as [Hd Hr]. apply orb_false_iff in Hd as [Ha Hl].
    apply negb_false_iff, allowed_binary_table in Ha as [f Hf].
    cbn [_eval] in H. rewrite Hf in H.
    apply bind_error in H as [H|(vl & _ & H)]; [eauto|].
    apply bind_error in H as [H|(vr & _ & H)]; [eauto|].
    eapply call2_error; eassumption.
  - cbn [has_disallowed] in Hd.
    apply orb_false_iff in Hd as [Ha Hx].
    apply negb_false_iff, allowed_unary_table in Ha as [f Hf].
    cbn [_eval] in H. rewrite Hf in H.
    apply bind_error in H as [H|(vx & _ & H)]; [eauto|].
    eapply call1_error; eassumption.
Qed.

Lemma disallowed_raised (msg : string) :
  disallowed_message msg ->
  exists e, Raise (A := value) (ValueError msg) = Raise e /\
            (disallowed_construct e \/ arithmetic_error e) /\
            (True -> disallowed_construct e).
Proof.
  intros H. exists (ValueError msg).
  split; [reflexivity|]. split; [left|intros _]; now apply disallowed_ValueError.
Qed.

(** A tree with a disallowed construct never evaluates to a value. *)
Lemma _eval_disallowed (nd : node) :
  has_disallowed nd = true ->
  exists e, _eval rt nd = Raise e /\
            (disallowed_construct e \/ arithmetic_error e) /\
            (operands_evaluate rt nd -> disallowed_construct e).
Proof.
  induction nd as [body IH|k|l IHl op r IHr|op x IH|f args|id|name];
    intros Hd.
  - simpl in *. auto.
  - destruct k; try discriminate; apply disallowed_raised;
      unfold disallowed_message; auto.
  - cbn [has_disallowed] in Hd. cbn [_eval operands_evaluate].
    destruct (allowed_binary op) eqn:Ha.
    + apply allowed_binary_table in Ha as [f Hf]. rewrite Hf.
      simpl in Hd.
      destruct (has_disallowed l) eqn:Hl.
      * destruct (IHl eq_refl) as (e & -> & He & Hops). exists e. auto.
      * simpl in Hd. destruct (IHr Hd) as (e & Hr & He & Hops).
        destruct (_eval rt l) as [vl|el] eqn:El.
        -- rewrite Hr. exists e. simpl. split; [reflexivity|].
           split; [exact He|]. intros [_ H]. auto.
        -- exists el. simpl. split; [reflexivity|]. split.
           ++ right. eapply _eval_clean; eassumption.
           ++ intros [[v Hv] _]. discriminate.
    + assert (Hn : ALLOWED_OPERATORS (BinClass op) = None).
      { destruct (ALLOWED_OPERATORS (BinClass op)) eqn:E; [|reflexivity].
        assert (allowed_binary op = true) by (apply allowed_binary_table; eauto).
        congruence. }
      rewrite Hn.
      destruct (disallowed_raised "Operator tidak diizinkan") as (e & H1 & H2 & H3);
        [unfold disallowed_message; auto|].
      exists e. auto.
  - cbn [has_disallowed] in Hd. cbn [_eval operands_evaluate].
    destruct (allowed_unary op) eqn:Ha.
    + apply allowed_unary_table in Ha as [f Hf]. rewrite Hf.
      simpl in Hd.
      destruct (IH Hd) as (e & -> & He & Hops). exists e. auto.
    + assert (Hn : ALLOWED_OPERATORS (UnClass op) = None).
      { destruct (ALLOWED_OPERATORS (UnClass op)) eqn:E; [|reflexivity].
        assert (allowed_unary op = true) by (apply allowed_unary_table; eauto).
        congruence. }
      rewrite Hn.
      destruct (disallowed_raised "Operator unary tidak diizinkan") as (e & H1 & H2 & H3);
        [unfold disallowed_message; auto|].
      exists e. auto.
  - destruct (disallowed_raised "Pemanggilan fungsi tidak diizinkan") as (e & H1 & H2 & H3);
      [unfold disallowed_message; auto 6|]. exists e. auto.
  - destruct (disallowed_raised "Ekspresi tidak diizinkan") as (e & H1 & H2 & H3);
      [unfold disallowed_message; auto 6|]. exists e. auto.
  - destruct (disallowed_raised "Ekspresi tidak diizinkan") as (e & H1 & H2 & H3);
      [unfold disallowed_message; auto 6|]. exists e. auto.
Qed.

(** What evaluates lies within the whitelist. *)
Lemma safe_eval_value_within_whitelist (s : str) (v : value) :
  safe_eval rt s = Ok v ->
  exists nd, ast_parse rt (to_python_operators s) = Ok nd /\
             has_disallowed nd = false.
Proof.
  unfold safe_eval. intros H.
  destruct (ast_parse rt (to_python_operators s)) as [nd|e] eqn:Hp.
  - exists nd. split; [reflexivity|].
    destruct (has_disallowed nd) eqn:Hd; [|reflexivity].
    destruct (_eval_disallowed nd Hd) as (e & He & _). congruence.
  - destruct e; discriminate.
Qed.

End Whitelist.




(** ** Evaluating the buffer *)




(** ** Sessions *)

Lemma no_adjacent_cons (a : char) (s : str) :
  no_adjacent_operators (a :: s)
  = negb (is_operator a && head_is_operator s) && no_adjacent_operators s.
Proof.
  destruct s as [|b s]; [|reflexivity].
  simpl. now rewrite andb_false_r.
Qed.

Lemma last_is_operator_cons (a b : char) (s : str) :
  last_is_operator (a :: b :: s) = last_is_operator (b :: s).
Proof. reflexivity. Qed.

Lemma no_adjacent_app (a b : str) :
  no_adjacent_operators a = true -> no_adjacent_operators b = true ->
  last_is_operator a && head_is_operator b = false ->
  no_adjacent_operators (a ++ b) = true.
Proof.
  induction a as [|x a IH]; intros Ha Hb Hab; [exact Hb|].
  rewrite no_adjacent_cons in Ha. apply andb_true_iff in Ha as [Hx Ha].
  simpl app. rewrite no_adjacent_cons. apply andb_true_iff. split.
  - destruct a as [|y a]; [|exact Hx].
    simpl app. unfold last_is_operator, last_char in Hab. simpl in Hab.
    now rewrite Hab.
  - apply IH; [exact Ha | exact Hb |].
    destruct a as [|y a]; [reflexivity|].
    now rewrite last_is_operator_cons in Hab.
Qed.

Lemma no_adjacent_drop_last (s : str) :
  no_adjacent_operators s = true ->
  no_adjacent_operators (drop_last s) = true /\
  (last_is_operator s = true -> last_is_operator (drop_last s) = false).
Proof.
  unfold drop_last.
  induction s as [|x s IH]; intros Hs; [split; reflexivity|].
  rewrite no_adjacent_cons in Hs. apply andb_true_iff in Hs as [Hx Hs].
  destruct (IH Hs) as [IH1 IH2].
  destruct s as [|y s]; [split; reflexivity|].
  change (removelast (x :: y :: s)) with (x :: removelast (y :: s)).
  rewrite last_is_operator_cons. split.
  - rewrite no_adjacent_cons. apply andb_true_iff. split; [|exact IH1].
    destruct s as [|z s]; [simpl; now rewrite andb_false_r|exact Hx].
  - intros Hl. specialize (IH2 Hl).
    destruct s as [|z s].
    + simpl. unfold last_is_operator, last_char in Hl. simpl in Hl, Hx.
      rewrite Hl, andb_true_r in Hx. unfold last_is_operator, last_char. simpl.
      now apply negb_true_iff in Hx.
    + change (removelast (y :: z :: s)) with (y :: removelast (z :: s)) in *.
      destruct (removelast (z :: s)); exact IH2.
Qed.

Lemma no_adjacent_trailing (s : str) :
  no_adjacent_operators s = true -> at_most_one_trailing_operator s.
Proof.
  intros Hs pre a b -> [Ha Hb].
  induction pre as [|x pre IH].
  - simpl in Hs. now rewrite Ha, Hb in Hs.
  - apply IH. simpl app in Hs. rewrite no_adjacent_cons in Hs.
    now apply andb_true_iff in Hs as [_ Hs].
Qed.

Lemma no_operator_no_adjacent (s : str) :
  Forall (fun c => is_operator c = false) s -> no_adjacent_operators s = true.
Proof.
  induction 1 as [|c s Hc _ IH]; [reflexivity|].
  rewrite no_adjacent_cons, Hc, IH. reflexivity.
Qed.

Lemma ascii_digit_not_operator (c : char) : ascii_digit c -> is_operator c = false.
Proof.
  intros [Hlo Hhi]. destruct (is_operator c) eqn:E; [|reflexivity].
  apply is_operator_cases in E. lia.
Qed.

Lemma digits_of_digits (fuel : nat) :
  forall n acc, Forall ascii_digit acc -> Forall ascii_digit (digits_of fuel n acc).
Proof.
  induction fuel as [|fuel IH]; intros n acc Hacc; simpl; [exact Hacc|].
  assert (Hd : Forall ascii_digit ((48 + n mod 10) :: acc)).
  { constructor; [|exact Hacc]. unfold ascii_digit.
    assert (n mod 10 < 10) by (apply N.mod_upper_bound; discriminate).
    set (d := n mod 10) in *. clearbody d. lia. }
  destruct (n / 10 =? 0); [exact Hd | now apply IH].
Qed.

Lemma digits_no_adjacent (s : str) :
  Forall ascii_digit s ->
  no_adjacent_operators s = true /\ head_is_operator s = false.
Proof.
  intros H. split.
  - apply no_operator_no_adjacent. eapply Forall_impl; [|exact H].
    apply ascii_digit_not_operator.
  - destruct H as [|c s Hc _]; [reflexivity|]. now apply ascii_digit_not_operator.
Qed.

(** The text of an [int] has no two adjacent operator characters, and that
    of a non-negative one does not start with an operator character. *)
Lemma str_int_clean (z : Z) :
  no_adjacent_operators (str_int z) = true /\
  ((0 <= z)%Z -> head_is_operator (str_int z) = false).
Proof.
  destruct z as [|p|p]; simpl str_int.
  - split; reflexivity.
  - destruct (digits_no_adjacent (digits_of (Pos.size_nat p) (Npos p) []))
      as [H1 H2]; [apply digits_of_digits; constructor|]. auto.
  - destruct (digits_no_adjacent (digits_of (Pos.size_nat p) (Npos p) []))
      as [H1 H2]; [apply digits_of_digits; constructor|].
    split; [|lia]. rewrite no_adjacent_cons, H1, H2. now rewrite andb_false_r.
Qed.

Lemma no_adjacent_prefix (a b : str) :
  no_adjacent_operators (a ++ b) = true -> no_adjacent_operators a = true.
Proof.
  induction a as [|x a IH]; [reflexivity|].
  simpl app. rewrite !no_adjacent_cons. intros H.
  apply andb_true_iff in H as [Hx H]. apply andb_true_iff. split; [|auto].
  destruct a; [simpl; now rewrite andb_false_r | exact Hx].
Qed.

Section FloatSigns.
Local Open Scope Z_scope.

Lemma round_Z_nonneg_sign (z : Z) : 0 <= z -> sign_bit (round_Z z) = Some false.
Proof.
  intros Hz. unfold round_Z. rewrite binary_normalize_sign.
  destruct z; [reflexivity | reflexivity | lia].
Qed.

Lemma round_ratio_sign (p q : positive) : sign_bit (round_ratio p q) = Some false.
Proof.
  unfold round_ratio.
  set (k := Z.max 0 (64 + Z.log2 (Zpos q) - Z.log2 (Zpos p))).
  pose proof (Z.div_pos (Zpos p * 2 ^ k) (Zpos q)) as Hd.
  unfold Z.div in Hd.
  destruct (Z.div_eucl (Zpos p * 2 ^ k) (Zpos q)) as [d r].
  apply binary_round_aux_sign. apply Hd; [|lia].
  apply Z.mul_nonneg_nonneg; [lia|]. apply Z.pow_nonneg. lia.
Qed.

Lemma round_decimal_sign (m : N) (e : Z) : sign_bit (round_decimal m e) = Some false.
Proof.
  unfold round_decimal. destruct (0 <=? e) eqn:He.
  - apply round_Z_nonneg_sign. apply Z.mul_nonneg_nonneg; [lia|].
    apply Z.pow_nonneg. lia.
  - assert (Hp : 0 < 10 ^ (- e)) by (apply Z.pow_pos_nonneg; lia).
    unfold round_quotient.
    destruct (10 ^ (- e)) as [|q|q]; try lia.
    destruct (Z.of_N m) as [|p|p] eqn:Hm; [reflexivity | apply round_ratio_sign | lia].
Qed.

Lemma fdiv_hundred_sign (v : float) :
  sign_bit v = Some false -> sign_bit (fdiv v hundred) = Some false.
Proof.
  destruct v as [s|s| |s m e]; simpl; intros H; try discriminate;
    injection H as ->; try reflexivity.
  unfold fdiv, hundred, SFdiv.
  destruct (SFdiv_core_binary _ _ _ _ _ _) as [[mz ez] lz] eqn:Hcore.
  apply binary_round_aux_sign.
  unfold SFdiv_core_binary in Hcore.
  change IntDef.Z.div_eucl with Z.div_eucl in Hcore.
  change IntDef.Z.shiftl with Z.shiftl in Hcore.
  match type of Hcore with
  | (let '(q, r) := Z.div_eucl ?a ?b in _) = _ =>
      pose proof (Z.div_pos a b) as Hd; unfold Z.div in Hd;
      destruct (Z.div_eucl a b) as [q r]; injection Hcore as <- _ _;
      apply Hd; [|lia]
  end.
  match goal with
  | |- 0 <= match ?s with _ => _ end => destruct s eqn:Hs; try lia
  end.
  apply Z.shiftl_nonneg. lia.
Qed.

End FloatSigns.

Section Sessions.
Variable rt : Runtime.
Hypothesis Hclean : renders_cleanly rt.

Lemma float_of_text_sign (s : str) (v : float) :
  float_of_text rt s = Some v -> sign_bit v = Some false.
Proof.
  unfold float_of_text.
  destruct (read_digits rt s 0 0) as [[ip ni] s1].
  destruct (match s1 with
            | 46 :: s1' => read_digits rt s1' ip 0
            | _ => (ip, 0%nat, s1)
            end) as [[m nf] s2].
  destruct (ni + nf =? 0)%nat; [discriminate|].
  destruct s2 as [|c s3].
  - intros H. injection H as <-. apply round_decimal_sign.
  - destruct ((c =? 101) || (c =? 69)); [|discriminate].
    destruct (read_digits rt s3 0 0) as [[ex [|n]] [|? ?]]; try discriminate.
    intros H. injection H as <-. apply round_decimal_sign.
Qed.

(** The rendering of a float that is not negative. *)
Lemma render_nonneg_clean (v : float) :
  sign_bit v = Some false ->
  no_adjacent_operators (render rt v) = true /\
  head_is_operator (render rt v) = false.
Proof.
  destruct Hclean as (Hrepr & Hhead & _).
  destruct v as [s|s| |s m e]; simpl sign_bit; intros H; try discriminate;
    injection H as ->; try (split; reflexivity).
  unfold render. destruct (is_integer (S754_finite false m e)).
  - destruct (str_int_clean (trunc (S754_finite false m e))) as [H1 H2].
    split; [exact H1|]. apply H2. unfold trunc. cbn [cond_Zopp].
    destruct (Z.leb_spec 0 e).
    + apply Z.mul_nonneg_nonneg; [lia | apply Z.pow_nonneg; lia].
    + apply Z.div_pos; [lia|]. apply Z.pow_pos_nonneg; lia.
  - simpl. auto.
Qed.

Lemma str_value_clean (v : value) :
  no_adjacent_operators (str_value rt v) = true.
Proof.
  destruct Hclean as (Hrepr & _ & Hcomplex).
  destruct v as [[|]|z|f|c]; simpl; try reflexivity.
  - apply str_int_clean.
  - destruct f as [[|]|[|]| |s m e]; simpl; try reflexivity. apply Hrepr.
  - apply Hcomplex.
Qed.

Lemma append_keeps (self : Calculator) (c : char) :
  no_adjacent_operators (expr self) = true ->
  no_adjacent_operators (expr (append self [c])) = true.
Proof.
  intros Hs. unfold append. fold (is_operator c).
  fold (is_operator (last_char (expr self))).
  destruct (is_operator c && (is_empty (expr self) || is_operator (last_char (expr self))))
    eqn:Hcond.
  - destruct (is_empty (expr self)) eqn:He; simpl; [exact Hs|].
    destruct (no_adjacent_drop_last (expr self) Hs) as [H1 H2].
    apply no_adjacent_app; [exact H1 | reflexivity |].
    rewrite H2; [reflexivity|].
    unfold last_is_operator. rewrite He. simpl.
    apply andb_true_iff in Hcond as [_ Hcond]. exact Hcond.
  - simpl. apply no_adjacent_app; [exact Hs | reflexivity |].
    unfold last_is_operator. simpl head_is_operator.
    destruct (is_operator c); [|now rewrite andb_false_r].
    simpl in Hcond. apply orb_false_iff in Hcond as [-> ->]. reflexivity.
Qed.

Lemma percent_keeps (self : Calculator) :
  no_adjacent_operators (expr self) = true ->
  no_adjacent_operators (expr (percent rt self)) = true.
Proof.
  intros Hs.
  destruct (trailing_run_exists rt (expr self)) as (pre & run & He & Hrun).
  rewrite (percent_on_run rt self pre run He Hrun).
  destruct run as [|c run]; [exact Hs|].
  destruct (float_of_text rt (c :: run)) as [val|] eqn:Hf; [|exact Hs].
  simpl expr.
  destruct (render_nonneg_clean (fdiv val hundred)) as [H1 H2].
  { apply fdiv_hundred_sign. eapply float_of_text_sign. exact Hf. }
  apply no_adjacent_app; [|exact H1|].
  - rewrite He in Hs. eapply no_adjacent_prefix. exact Hs.
  - rewrite H2. apply andb_false_r.
Qed.

Lemma evaluate_keeps (self : Calculator) :
  no_adjacent_operators (expr self) = true ->
  no_adjacent_operators (expr (evaluate rt self)) = true.
Proof.
  intros Hs. unfold evaluate.
  destruct (is_empty (expr self)); [exact Hs|].
  destruct (evaluated_text rt (expr self)) as [text|e] eqn:Ht; [|exact Hs].
  simpl expr. unfold evaluated_text in Ht.
  destruct (safe_eval rt (py_expr (expr self))) as [res|]; [|discriminate].
  simpl in Ht.
  assert (Hinj : forall a b : str, Ok a = Ok b -> a = b) by (intros; congruence).
  destruct res as [b|z|f|c];
    try (apply Hinj in Ht; subst text; apply str_value_clean).
  destruct (is_integer f); apply Hinj in Ht; subst text;
    [apply str_int_clean | apply str_value_clean].
Qed.

Lemma step_keeps (self : Calculator) (cmd : command) :
  is_negate cmd = false ->
  no_adjacent_operators (expr self) = true ->
  no_adjacent_operators (expr (step rt self cmd)) = true.
Proof.
  intros Hcmd Hs. destruct cmd; try discriminate; simpl.
  - now apply append_keeps.
  - now apply no_adjacent_drop_last.
  - reflexivity.
  - now apply percent_keeps.
  - now apply evaluate_keeps.
Qed.

Lemma session_keeps (cmds : list command) :
  forall self,
    forallb (fun cmd => negb (is_negate cmd)) cmds = true ->
    no_adjacent_operators (expr self) = true ->
    no_adjacent_operators (expr (List.fold_left (step rt) cmds self)) = true.
Proof.
  induction cmds as [|cmd cmds IH]; intros self Hc Hs; [exact Hs|].
  simpl in Hc. apply andb_true_iff in Hc as [Hcmd Hc].
  simpl. apply IH; [exact Hc|].
  apply step_keeps; [now apply negb_true_iff | exact Hs].
Qed.

End Sessions.

(** ** The text of a float has its operator characters apart *)

Section ReprShape.

Lemma operator_free_head (s : str) : operator_free s -> head_is_operator s = false.
Proof. intros [|c t Hc _]; [reflexivity | exact Hc]. Qed.

Lemma operator_free_last (s : str) : operator_free s -> last_is_operator s = false.
Proof.
  unfold last_is_operator, last_char.
  induction 1 as [|c t Hc H IH]; [reflexivity|].
  destruct t as [|d t]; [simpl; exact Hc | exact IH].
Qed.

(** One operator character between two texts without any. *)
Lemma isolated_operator (a b : str) (c : char) :
  operator_free a -> operator_free b -> no_adjacent_operators (a ++ c :: b) = true.
Proof.
  intros Ha Hb. apply no_adjacent_app.
  - now apply no_operator_no_adjacent.
  - rewrite no_adjacent_cons, (operator_free_head b Hb), andb_false_r.
    now apply no_operator_no_adjacent.
  - now rewrite (operator_free_last a Ha).
Qed.

Lemma operator_free_digits (s : str) : Forall ascii_digit s -> operator_free s.
Proof.
  intros H. eapply Forall_impl; [|exact H]. apply ascii_digit_not_operator.
Qed.

Lemma str_int_operator_free (z : Z) : (0 <= z)%Z -> operator_free (str_int z).
Proof.
  intros Hz. apply operator_free_digits. destruct z as [|p|p]; simpl str_int; [| |lia].
  - repeat constructor; vm_compute; discriminate.
  - apply digits_of_digits. constructor.
Qed.

Lemma strip_zeros_operator_free (s : str) : operator_free s -> operator_free (Repr.strip_zeros s).
Proof.
  induction 1 as [|c t Hc H IH]; [constructor|].
  simpl. destruct t as [|d t]; [now constructor|].
  destruct (c =? 48); [exact IH | now constructor].
Qed.

Lemma zeros_operator_free (n : Z) : operator_free (Repr.zeros n).
Proof.
  unfold Repr.zeros. apply Forall_forall. intros c Hc.
  apply repeat_spec in Hc. subst c. reflexivity.
Qed.

Lemma exponent_text_shape (x : Z) :
  exists c ds, Repr.exponent_text x = c :: ds /\ operator_free ds.
Proof.
  unfold Repr.exponent_text. eexists. eexists. split; [reflexivity|].
  assert (H : operator_free (str_int (Z.abs x))) by (apply str_int_operator_free; lia).
  destruct (_ <? 2)%nat; [constructor; [reflexivity | exact H] | exact H].
Qed.

Lemma layout_clean (ds : str) (point : Z) :
  operator_free ds ->
  no_adjacent_operators (Repr.layout ds point) = true /\
  head_is_operator (Repr.layout ds point) = false.
Proof.
  intros Hds. unfold Repr.layout.
  destruct ((point <=? -4)%Z || (16 <? point)%Z).
  - destruct (exponent_text_shape (point - 1)) as (c & ex & -> & Hex).
    destruct ds as [|d [|d' rest]]; [split; reflexivity | |].
    + inversion Hds as [|? ? Hd _]. subst. split; [|exact Hd].
      apply (isolated_operator [d; 101] ex c); [|exact Hex].
      constructor; [exact Hd|]. constructor; [reflexivity | constructor].
    + inversion Hds as [|? ? Hd Hrest]. subst. split; [|exact Hd].
      change (d :: 46 :: (d' :: rest) ++ 101 :: c :: ex)
        with ((d :: 46 :: (d' :: rest)) ++ 101 :: c :: ex).
      replace ((d :: 46 :: d' :: rest) ++ 101 :: c :: ex)
        with (((d :: 46 :: d' :: rest) ++ [101]) ++ c :: ex)
        by (now rewrite <- app_assoc).
      apply isolated_operator; [|exact Hex].
      apply Forall_app. split.
      * constructor; [exact Hd|]. constructor; [reflexivity | exact Hrest].
      * constructor; [reflexivity | constructor].
  - assert (Hfree : forall s, operator_free s ->
              no_adjacent_operators s = true /\ head_is_operator s = false).
    { intros s Hs. split; [now apply no_operator_no_adjacent|].
      now apply operator_free_head. }
    destruct (point <=? 0)%Z; [|destruct (_ <=? point)%Z]; apply Hfree.
    + constructor; [reflexivity|]. constructor; [reflexivity|].
      apply Forall_app. split; [apply zeros_operator_free | exact Hds].
    + apply Forall_app. split; [exact Hds|]. apply Forall_app.
      split; [apply zeros_operator_free|]. repeat constructor.
    + rewrite <- (firstn_skipn (Z.to_nat point) ds) in Hds.
      apply Forall_app in Hds as [H1 H2].
      apply Forall_app. split; [exact H1|].
      constructor; [reflexivity | exact H2].
Qed.

Lemma fraction_positive (m : positive) (e : Z) :
  (0 < fst (Repr.fraction m e) /\ 0 < snd (Repr.fraction m e))%Z.
Proof.
  assert (Hp : forall x, (0 <= x -> 0 < 2 ^ x)%Z)
    by (intros; apply Z.pow_pos_nonneg; lia).
  unfold Repr.fraction. destruct (Z.leb_spec 0 e); cbn [fst snd]; split;
    try (apply Z.mul_pos_pos); try (apply Hp); lia.
Qed.

Lemma scaled_nonneg (num den k : Z) :
  (0 < num)%Z -> (0 < den)%Z -> (0 <= fst (Repr.scaled num den k))%Z.
Proof.
  intros Hn Hd. unfold Repr.scaled.
  assert (Hp : forall x, (0 <= x -> 0 < 10 ^ x)%Z)
    by (intros; apply Z.pow_pos_nonneg; lia).
  destruct (Z.leb_spec 0 k); cbn [fst snd]; apply Z.div_pos.
  - lia.
  - apply Z.mul_pos_pos; [lia | apply Hp; lia].
  - apply Z.mul_nonneg_nonneg; [lia|]. apply Z.lt_le_incl, Hp. lia.
  - lia.
Qed.

Lemma shortest_nonneg (fuel : nat) (m : positive) (e t : Z) :
  forall n, (0 <= fst (Repr.shortest fuel n m e t))%Z.
Proof.
  induction fuel as [|fuel IH]; intros n; simpl;
    pose proof (fraction_positive m e) as [Hnum Hden];
    destruct (Repr.fraction m e) as [num den]; simpl in Hnum, Hden;
    pose proof (scaled_nonneg num den (t + 1 - n) Hnum Hden) as Hlo;
    destruct (Repr.scaled num den (t + 1 - n)) as [lo side]; simpl in Hlo.
  - destruct side; simpl; lia.
  - destruct (Repr.reads_back m e lo _), (Repr.reads_back m e (lo + 1) _);
      simpl; try lia; [|apply IH].
    destruct side; [destruct (Z.even lo)| |]; simpl; lia.
Qed.

Lemma digits_operator_free (m : positive) (e : Z) :
  operator_free (fst (Repr.digits_and_point m e)).
Proof.
  unfold Repr.digits_and_point.
  destruct (Repr.fraction m e) as [num den].
  match goal with
  | |- context [Repr.shortest ?f ?n m e ?t] =>
      pose proof (shortest_nonneg f m e t n) as Hc;
      destruct (Repr.shortest f n m e t) as [c k]
  end.
  simpl in Hc |- *. apply Forall_rev, strip_zeros_operator_free, Forall_rev.
  now apply str_int_operator_free.
Qed.

(** The text of a finite float has no two adjacent operator characters,
    and that of a positive one does not start with one. *)
Lemma float_repr_clean (s : bool) (m : positive) (e : Z) :
  no_adjacent_operators (Repr.float_repr s m e) = true /\
  head_is_operator (Repr.float_repr false m e) = false.
Proof.
  unfold Repr.float_repr. pose proof (digits_operator_free m e) as Hds.
  destruct (Repr.digits_and_point m e) as [ds point]. simpl in Hds.
  destruct (layout_clean ds point Hds) as [H1 H2].
  split; [|exact H2].
  destruct s; [|exact H1].
  simpl app. rewrite no_adjacent_cons, H1, H2. now rewrite andb_false_r.
Qed.

End ReprShape.

(** C6 as stated fails: [negate] puts a minus sign next to the operator
    before the number, whatever the runtime. *)
Lemma negate_puts_operators_together :
  ~ (exists rt,
       no_adjacent_operators
         (expr (run rt [Append 49; Append 50; Append 43; Append 53; Negate]))
       = true) /\
  (forall rt,
     expr (run rt [Append 49; Append 50; Append 43; Append 53; Negate])
     = u "12+-5").
Proof.
  split.
  - intros (rt & H). vm_compute in H. discriminate.
  - intros rt. vm_compute. reflexivity.
Qed.

(** C6, amended.  In a session without [negate], that is any sequence of
    [append] of one character, [backspace], [clear], [percent] and
    [evaluate] from the empty buffer, the buffer never holds two adjacent
    operator characters, and so ends in at most one; for [percent] and
    [evaluate] this rests on the rendering of floats and complex numbers
    having no two adjacent operator characters, and none at the head of a
    positive float. *)
Theorem sessions_keep_operators_apart (rt : Runtime) (cmds : list command) :
  renders_cleanly rt ->
  forallb (fun cmd => negb (is_negate cmd)) cmds = true ->
  no_adjacent_operators (expr (run rt cmds)) = true /\
  at_most_one_trailing_operator (expr (run rt cmds)).
Proof.
  intros Hclean Hcmds.
  assert (H : no_adjacent_operators (expr (run rt cmds)) = true)
    by (apply session_keeps; auto).
  split; [exact H | now apply no_adjacent_trailing].
Qed.

Lemma sessions_keep_operators_apart_witness :
  renders_cleanly Example.runtime /\
  no_adjacent_operators
    (expr (run Example.runtime
             [Append 55; Append 43; Append 215; Append 51; Append 48; Percent;
              Backspace; Append 45; Append 247; Append 50; Evaluate]))
  = true.
Proof.
  assert (Hclean : renders_cleanly Example.runtime).
  { split; [|split].
    - intros s m e. exact (proj1 (float_repr_clean s m e)).
    - intros m e. exact (proj2 (float_repr_clean false m e)).
    - intros c. reflexivity. }
  split; [exact Hclean|].
  apply (sessions_keep_operators_apart Example.runtime
           [Append 55; Append 43; Append 215; Append 51; Append 48; Percent;
            Backspace; Append 45; Append 247; Append 50; Evaluate] Hclean).
  reflexivity.
Defined.

(** ** Sessions of the example runtime *)

Example session_seven_plus_three_times_two :
  expr (run Example.runtime
          [Append 55; Append 43; Append 51; Append 215; Append 50; Evaluate])
  = u "13".
Proof. vm_compute. reflexivity. Qed.

Example session_nine_by_zero :
  let after_keys := run Example.runtime [Append 57; Append 247; Append 48] in
  expr (evaluate Example.runtime after_keys) = u "9÷0" /\
  display_var (evaluate Example.runtime after_keys) = u "Error" /\
  display_var (_update_display (evaluate Example.runtime after_keys)) = u "9÷0".
Proof. vm_compute. repeat split. Qed.

Example percent_of_200 :
  expr (percent Example.runtime (Example.with_buffer (u "200"))) = u "2".
Proof. vm_compute. reflexivity. Qed.

Example percent_of_5 :
  expr (percent Example.runtime (Example.with_buffer (u "12+5"))) = u "12+0.05".
Proof. vm_compute. reflexivity. Qed.

Example negate_of_fraction :
  expr (negate Example.runtime (Example.with_buffer (u "7×1.5"))) = u "7×-1.5".
Proof. vm_compute. reflexivity. Qed.

Example negate_of_exponent_text :
  expr (negate Example.runtime (Example.with_buffer (u "2e3"))) = u "-2000" /\
  expr (negate Example.runtime (Example.with_buffer (u "1e-5"))) = u "1e--5" /\
  expr (negate Example.runtime (Example.with_buffer (u "1.2.3"))) = u "1.2.3".
Proof. vm_compute. repeat split. Qed.

Example evaluate_keeps_fractions :
  expr (evaluate Example.runtime (Example.with_buffer (u "9÷2"))) = u "4.5" /\
  expr (evaluate Example.runtime (Example.with_buffer (u "0.1+0.2")))
  = u "0.30000000000000004" /\
  expr (evaluate Example.runtime (Example.with_buffer (u "9÷3"))) = u "3".
Proof. vm_compute. repeat split. Qed.

Example evaluate_accepts_booleans :
  safe_eval Example.runtime (u "True+1") = Ok (VInt 2).
Proof. vm_compute. reflexivity. Qed.

(** ** The replacements before parsing *)

Lemma replace_app (a b : str) (old : char) (new : str) :
  replace (a ++ b) old new = replace a old new ++ replace b old new.
Proof.
  induction a as [|x a IH]; [reflexivity|].
  simpl. now rewrite IH, app_assoc.
Qed.






Lemma to_python_operators_app (a b : str) :
  to_python_operators (a ++ b) = to_python_operators a ++ to_python_operators b.
Proof. unfold to_python_operators. now rewrite !replace_app. Qed.

Lemma py_expr_app (a b : str) : py_expr (a ++ b) = py_expr a ++ py_expr b.
Proof. unfold py_expr. now rewrite !replace_app. Qed.

Lemma to_python_operators_py_expr (e : str) :
  to_python_operators (py_expr e) = to_python_operators e.
Proof.
  induction e as [|c e IH]; [reflexivity|].
  change (c :: e) with ([c] ++ e).
  rewrite py_expr_app, !to_python_operators_app, IH. f_equal.
  unfold py_expr, to_python_operators. simpl.
  destruct (N.eqb_spec c 247) as [->|H247]; [reflexivity|].
  simpl. destruct (N.eqb_spec c 215) as [->|H215]; [reflexivity|].
  simpl. destruct (N.eqb_spec c 215); [contradiction|].
  simpl. destruct (N.eqb_spec c 247); [contradiction|]. reflexivity.
Qed.

Lemma safe_eval_py_expr (rt : Runtime) (e : str) :
  safe_eval rt (py_expr e) = safe_eval rt e.
Proof. unfold safe_eval. now rewrite to_python_operators_py_expr. Qed.

(** X2.  The replacement of [÷] and [×] that [evaluate] makes before it
    calls [safe_eval] changes nothing of what [safe_eval] parses, and so
    nothing of its result: [safe_eval] makes the same replacement itself. *)
Theorem evaluate_replacement_is_subsumed (rt : Runtime) (e : str) :
  to_python_operators (py_expr e) = to_python_operators e /\
  safe_eval rt (py_expr e) = safe_eval rt e.
Proof.
  split; [apply to_python_operators_py_expr | apply safe_eval_py_expr].
Qed.

(** ** Backspace *)

Lemma drop_last_firstn (s : str) :
  drop_last s = List.firstn (List.length s - 1) s.
Proof.
  unfold drop_last. destruct s as [|c s] using rev_ind; [reflexivity|].
  rewrite removelast_last, length_app. simpl.
  replace (List.length s + 1 - 1)%nat with (List.length s) by lia.
  now rewrite firstn_app, Nat.sub_diag, firstn_all, app_nil_r.
Qed.

Lemma last_is_operator_app_single (pre : str) (c : char) :
  last_is_operator (pre ++ [c]) = is_operator c.
Proof.
  unfold last_is_operator. now rewrite is_empty_app_single, last_char_app_single.
Qed.

(** X3.  [backspace] after [append] of one character gives the buffer
    back, except when an operator character was typed over another one:
    then the operator that was replaced is gone as well. *)
Theorem backspace_after_append (self : Calculator) (c : char) :
  expr (backspace (append self [c]))
  = if is_operator c && last_is_operator (expr self)
    then drop_last (expr self) else expr self.
Proof.
  destruct (expr self) as [|x e] eqn:He using rev_ind.
  - rewrite andb_false_r. unfold backspace, append. fold (is_operator c).
    rewrite He. simpl. destruct (is_operator c); simpl.
    + now rewrite He.
    + reflexivity.
  - clear IHe. rewrite last_is_operator_app_single.
    destruct (is_operator c) eqn:Hc; simpl andb.
    + destruct (is_operator x) eqn:Hx.
      * unfold backspace. simpl expr.
        rewrite (append_operator_replaces self c x e Hc Hx He).
        now rewrite !drop_last_app_single.
      * unfold backspace. simpl expr.
        rewrite (append_extends self c x e Hx He).
        change (e ++ [x; c]) with (e ++ [x] ++ [c]).
        now rewrite app_assoc, drop_last_app_single.
    + unfold backspace. simpl expr.
      rewrite (append_non_operator self c Hc), He.
      now rewrite drop_last_app_single.
Qed.

Lemma backspace_iter_expr (n : nat) (self : Calculator) :
  expr (Nat.iter n backspace self)
  = List.firstn (List.length (expr self) - n) (expr self).
Proof.
  induction n as [|n IH].
  - simpl. now rewrite Nat.sub_0_r, firstn_all.
  - simpl Nat.iter. unfold backspace at 1. simpl expr.
    rewrite drop_last_firstn, IH, length_firstn, firstn_firstn.
    f_equal. lia.
Qed.

(** X4.  Each [backspace] removes exactly the last character: after [n]
    of them the buffer is what it was without its last [n] characters, and
    once [n] reaches the length of the buffer the buffer is empty and the
    display shows ["0"]. *)
Theorem backspace_n_times (n : nat) (self : Calculator) :
  expr (Nat.iter n backspace self)
  = List.firstn (List.length (expr self) - n) (expr self) /\
  (0 < n -> List.length (expr self) <= n ->
   expr (Nat.iter n backspace self) = [] /\
   display_var (Nat.iter n backspace self) = u "0")%nat.
Proof.
  split; [apply backspace_iter_expr|].
  intros Hn Hlen.
  assert (He : expr (Nat.iter n backspace self) = []).
  { rewrite backspace_iter_expr.
    replace (List.length (expr self) - n)%nat with 0%nat by lia. reflexivity. }
  split; [exact He|].
  destruct n as [|n]; [lia|].
  simpl Nat.iter in *. unfold backspace in *. simpl in *.
  now rewrite He.
Qed.

Lemma backspace_n_times_witness :
  expr (Nat.iter 3 backspace (Example.with_buffer (u "12+"))) = [] /\
  display_var (Nat.iter 3 backspace (Example.with_buffer (u "12+"))) = u "0".
Proof.
  apply (backspace_n_times 3 (Example.with_buffer (u "12+"))); simpl; lia.
Defined.

(** ** The keyboard *)






(** X6.  A key event without a character, as a modifier key sends it, is
    passed on to [append] as an empty text: when the buffer ends in an
    operator character that character is removed, and otherwise the buffer
    stays as it is. *)
Theorem key_without_character (rt : Runtime) (self : Calculator) :
  _on_key rt self [] = append self [] /\
  expr (_on_key rt self [])
  = if last_is_operator (expr self) then drop_last (expr self) else expr self.
Proof.
  assert (H : _on_key rt self [] = append self []) by reflexivity.
  split; [exact H|]. rewrite H. unfold append, last_is_operator.
  fold (is_operator (last_char (expr self))).
  change (contains OPERATOR_CHARS []) with true. simpl andb.
  destruct (is_empty (expr self)) eqn:He; simpl.
  - reflexivity.
  - destruct (is_operator (last_char (expr self))); simpl.
    + apply app_nil_r.
    + apply app_nil_r.
Qed.

(** ** The display along a session *)

Lemma display_text_length (e : str) :
  (1 <= List.length (display_text e) <= 30)%nat.
Proof.
  unfold display_text.
  set (text := if is_empty e then u "0" else e).
  assert (Hne : (1 <= List.length text)%nat)
    by (unfold text; destruct e; simpl; lia).
  destruct (Nat.ltb_spec 30 (List.length text)).
  - unfold tail_slice. rewrite length_skipn. lia.
  - lia.
Qed.

Lemma update_display_ok (self : Calculator) : display_ok (_update_display self).
Proof. left. reflexivity. Qed.

Lemma append_display (self : Calculator) (ch : str) :
  append self ch = self \/ display_ok (append self ch).
Proof.
  unfold append.
  destruct (contains OPERATOR_CHARS ch && _).
  - destruct (negb (is_empty (expr self))); [right; apply update_display_ok | now left].
  - right. apply update_display_ok.
Qed.

Lemma negate_display (rt : Runtime) (self : Calculator) :
  negate rt self = self \/ display_ok (negate rt self).
Proof.
  unfold negate.
  destruct (is_empty (expr self)); [now left|].
  destruct (is_empty _); [now left|].
  destruct (float_of_text rt _); [right; apply update_display_ok | now left].
Qed.

Lemma percent_display (rt : Runtime) (self : Calculator) :
  percent rt self = self \/ display_ok (percent rt self).
Proof.
  unfold percent.
  destruct (is_empty (expr self)); [now left|].
  destruct (is_empty _); [now left|].
  destruct (float_of_text rt _); [right; apply update_display_ok | now left].
Qed.

Lemma evaluate_display (rt : Runtime) (self : Calculator) :
  evaluate rt self = self \/ display_ok (evaluate rt self).
Proof.
  unfold evaluate.
  destruct (is_empty (expr self)); [now left|].
  destruct (evaluated_text rt (expr self)); right.
  - apply update_display_ok.
  - right. split; [reflexivity|]. simpl. now destruct (after_queue self).
Qed.

Lemma step_display (rt : Runtime) (self : Calculator) (cmd : command) :
  step rt self cmd = self \/ display_ok (step rt self cmd).
Proof.
  destruct cmd; simpl.
  - apply append_display.
  - right. apply update_display_ok.
  - right. apply update_display_ok.
  - apply negate_display.
  - apply percent_display.
  - apply evaluate_display.
Qed.

Lemma on_key_display (rt : Runtime) (self : Calculator) (key : str) :
  _on_key rt self key = self \/ display_ok (_on_key rt self key).
Proof.
  unfold _on_key.
  destruct (str_isdigit rt key || contains KEY_CHARS key).
  - destruct (str_eqb key (u "/")); [apply append_display|].
    destruct (str_eqb key (u "*")); apply append_display.
  - destruct (str_eqb key [13]); [apply evaluate_display | now left].
Qed.

Lemma timer_due_display (self : Calculator) :
  timer_due self = self \/ display_ok (timer_due self).
Proof.
  unfold timer_due. destruct (after_queue self) as [|[ms cb] rest]; [now left|].
  right. destruct cb. apply update_display_ok.
Qed.

Lemma handle_display (rt : Runtime) (self : Calculator) (ev : event) :
  handle rt self ev = self \/ display_ok (handle rt self ev).
Proof.
  destruct ev as [label|pattern char|]; simpl.
  - destruct (button_command label); [apply step_display | now left].
  - destruct (bound_handler pattern) as [[|cmd]|];
      [apply on_key_display | apply step_display | now left].
  - apply timer_due_display.
Qed.

Lemma window_display_ok (rt : Runtime) (evs : list event) :
  display_ok (window rt evs).
Proof.
  unfold window.
  assert (H : forall self, display_ok self ->
                           display_ok (List.fold_left (handle rt) evs self)).
  { induction evs as [|ev evs IH]; intros self Hs; [exact Hs|].
    simpl. apply IH. destruct (handle_display rt self ev) as [->|H]; assumption. }
  apply H. left. reflexivity.
Qed.

(** X7.  Whatever buttons are pressed, keys are typed and timers come
    due, the display of the window shows the buffer as [_update_display]
    cuts it, or the text [Error] while a redraw is still pending; it holds
    between 1 and 30 characters. *)
Theorem display_follows_buffer (rt : Runtime) (evs : list event) :
  (display_var (window rt evs) = display_text (expr (window rt evs)) \/
   (display_var (window rt evs) = u "Error" /\ after_queue (window rt evs) <> [])) /\
  (1 <= List.length (display_var (window rt evs)) <= 30)%nat.
Proof.
  pose proof (window_display_ok rt evs) as H. split; [exact H|].
  destruct H as [H|[H _]]; rewrite H.
  - apply display_text_length.
  - simpl. lia.
Qed.

Lemma timers_due (n : nat) (self : Calculator) :
  (n <= List.length (after_queue self))%nat ->
  expr (Nat.iter n timer_due self) = expr self /\
  after_queue (Nat.iter n timer_due self) = List.skipn n (after_queue self) /\
  ((0 < n)%nat -> in_sync (Nat.iter n timer_due self)).
Proof.
  induction n as [|n IH]; intros Hn.
  - simpl. repeat split. lia.
  - destruct IH as (He & Hq & _); [lia|].
    simpl Nat.iter. unfold timer_due at 1 3 5. rewrite Hq.
    destruct (List.skipn n (after_queue self)) as [|[ms cb] rest] eqn:Hs.
    + apply (f_equal (@List.length _)) in Hs. rewrite length_skipn in Hs.
      simpl in Hs. lia.
    + assert (Hq' : List.skipn (S n) (after_queue self) = rest).
      { replace (S n) with (1 + n)%nat by lia.
        rewrite <- skipn_skipn, Hs. reflexivity. }
      rewrite Hq'. destruct cb. simpl. split; [exact He|]. split.
      * reflexivity.
      * intros _. reflexivity.
Qed.

(** X8.  The text [Error] does not stay: in every state the window can
    reach, once the timers that are pending have come due the display
    shows the buffer again, and the buffer is the one that was there. *)
Theorem error_text_is_temporary (rt : Runtime) (evs : list event) :
  let w := window rt evs in
  let w' := Nat.iter (List.length (after_queue w)) timer_due w in
  display_var w' = display_text (expr w') /\
  expr w' = expr w /\
  after_queue w' = [].
Proof.
  intros w w'.
  destruct (timers_due (List.length (after_queue w)) w) as (He & Hq & Hs); [lia|].
  fold w' in He, Hq, Hs.
  split; [|split; [exact He | now rewrite Hq, skipn_all]].
  destruct (after_queue w) as [|t q] eqn:E.
  - destruct (window_display_ok rt evs) as [H|[_ H]].
    + exact H.
    + fold w in H. congruence.
  - apply Hs. simpl. lia.
Qed.

(** ** Operators along a session of events *)

Lemma example_renders_cleanly : renders_cleanly Example.runtime.
Proof.
  split; [|split].
  - intros s m e. exact (proj1 (float_repr_clean s m e)).
  - intros m e. exact (proj2 (float_repr_clean false m e)).
  - intros c. reflexivity.
Qed.

Lemma bound_commands (pattern : string) (cmd : command) :
  bound_handler pattern = Some (Ignoring_event cmd) ->
  cmd = Evaluate \/ cmd = Backspace \/ cmd = Clear.
Proof.
  unfold bound_handler, _bind_keys. cbn [List.find fst].
  repeat (destruct (String.eqb _ pattern); [intros H; inversion H; auto|]).
  discriminate.
Qed.

Lemma timer_due_expr (self : Calculator) : expr (timer_due self) = expr self.
Proof.
  unfold timer_due. destruct (after_queue self) as [|[ms cb] rest]; [reflexivity|].
  now destruct cb.
Qed.

Lemma append_empty_text (self : Calculator) :
  expr (append self [])
  = if last_is_operator (expr self) then drop_last (expr self) else expr self.
Proof.
  unfold append, last_is_operator.
  fold (is_operator (last_char (expr self))).
  change (contains OPERATOR_CHARS []) with true. simpl andb.
  destruct (is_empty (expr self)) eqn:He; simpl; [reflexivity|].
  destruct (is_operator (last_char (expr self))); simpl; apply app_nil_r.
Qed.

Lemma on_key_keeps (rt : Runtime) (self : Calculator) (key : str) :
  renders_cleanly rt -> (List.length key <= 1)%nat ->
  no_adjacent_operators (expr self) = true ->
  no_adjacent_operators (expr (_on_key rt self key)) = true.
Proof.
  intros Hclean Hlen Hs. unfold _on_key.
  destruct (str_isdigit rt key || contains KEY_CHARS key).
  - destruct (str_eqb key (u "/")); [now apply append_keeps|].
    destruct (str_eqb key (u "*")); [now apply append_keeps|].
    destruct key as [|c [|d key]]; [| now apply append_keeps | simpl in Hlen; lia].
    rewrite append_empty_text.
    destruct (last_is_operator (expr self)); [|exact Hs].
    now apply no_adjacent_drop_last.
  - destruct (str_eqb key [13]); [now apply evaluate_keeps | exact Hs].
Qed.

Lemma handle_keeps (rt : Runtime) (self : Calculator) (ev : event) :
  renders_cleanly rt ->
  one_character ev && negb (is_sign_button ev) = true ->
  no_adjacent_operators (expr self) = true ->
  no_adjacent_operators (expr (handle rt self ev)) = true.
Proof.
  intros Hclean Hev Hs. apply andb_true_iff in Hev as [Hone Hsign].
  destruct ev as [label|pattern char|]; simpl in *.
  - destruct (button_command label) as [cmd|]; [|exact Hs].
    apply step_keeps; [exact Hclean | | exact Hs].
    now destruct cmd.
  - destruct (bound_handler pattern) as [[|cmd]|] eqn:Hb; [| |exact Hs].
    + apply on_key_keeps; [exact Hclean | | exact Hs]. now apply Nat.leb_le.
    + apply step_keeps; [exact Hclean | | exact Hs].
      destruct (bound_commands pattern cmd Hb) as [->|[->| ->]]; reflexivity.
  - now rewrite timer_due_expr.
Qed.

(** X9.  The buffer keeps its operator characters apart along every
    sequence of button presses, key events of at most one character and
    timers in which the sign button is not pressed: no two of the
    characters [÷ × + -] are ever adjacent.  As for the sessions of
    commands, this rests on the rendering of floats and complex numbers
    having no two adjacent operator characters, and none at the head of a
    positive float. *)
Theorem window_keeps_operators_apart (rt : Runtime) (evs : list event) :
  renders_cleanly rt ->
  forallb (fun ev => one_character ev && negb (is_sign_button ev)) evs = true ->
  no_adjacent_operators (expr (window rt evs)) = true.
Proof.
  intros Hclean. unfold window.
  assert (H : forall self,
            forallb (fun ev => one_character ev && negb (is_sign_button ev)) evs = true ->
            no_adjacent_operators (expr self) = true ->
            no_adjacent_operators (expr (List.fold_left (handle rt) evs self)) = true).
  { induction evs as [|ev evs IH]; intros self Hevs Hs; [exact Hs|].
    simpl in Hevs. apply andb_true_iff in Hevs as [Hev Hevs].
    simpl. apply IH; [exact Hevs|]. now apply handle_keeps. }
  intros Hevs. apply H; [exact Hevs | reflexivity].
Qed.

Lemma window_keeps_operators_apart_witness :
  no_adjacent_operators
    (expr (window Example.runtime
             [Click (u "7"); KeyEvent "<Key>" (u "+"); KeyEvent "<Key>" (u "*");
              KeyEvent "<Key>" []; Click (u "-"); Click (u "3");
              KeyEvent "<Return>" [13]; Timer; Click (u "%")]))
  = true.
Proof.
  apply (window_keeps_operators_apart Example.runtime _ example_renders_cleanly).
  reflexivity.
Defined.

(** ** The head of a typed buffer *)

Lemma head_is_operator_app (a b : str) :
  head_is_operator (a ++ b)
  = if is_empty a then head_is_operator b else head_is_operator a.
Proof. destruct a; reflexivity. Qed.

Lemma drop_last_head (s : str) :
  head_is_operator s = false -> head_is_operator (drop_last s) = false.
Proof.
  destruct s as [|x [|y s]]; try reflexivity.
  intros H. exact H.
Qed.

Lemma append_head (self : Calculator) (c : char) :
  head_is_operator (expr self) = false ->
  head_is_operator (expr (append self [c])) = false.
Proof.
  intros Hs. unfold append. fold (is_operator c).
  fold (is_operator (last_char (expr self))).
  destruct (expr self) as [|x e] eqn:He.
  - simpl. destruct (is_operator c) eqn:Hc; simpl; [now rewrite He | exact Hc].
  - simpl is_empty. simpl orb. simpl negb.
    destruct (is_operator c && is_operator (last_char (x :: e))) eqn:Hc; simpl expr.
    + apply andb_true_iff in Hc as [_ Hc].
      destruct e as [|y e]; [unfold last_char in Hc; simpl in *; congruence|].
      exact Hs.
    + exact Hs.
Qed.

Lemma percent_head (rt : Runtime) (self : Calculator) :
  renders_cleanly rt ->
  head_is_operator (expr self) = false ->
  head_is_operator (expr (percent rt self)) = false.
Proof.
  intros Hclean Hs.
  destruct (trailing_run_exists rt (expr self)) as (pre & run & He & Hrun).
  rewrite (percent_on_run rt self pre run He Hrun).
  destruct run as [|c run]; [exact Hs|].
  destruct (float_of_text rt (c :: run)) as [val|] eqn:Hf; [|exact Hs].
  simpl expr. rewrite head_is_operator_app.
  destruct pre as [|x pre]; simpl is_empty; cbv iota.
  - apply render_nonneg_clean; [exact Hclean|].
    apply fdiv_hundred_sign. eapply float_of_text_sign. exact Hf.
  - rewrite He in Hs. exact Hs.
Qed.

(** X10.  A buffer that is typed in never starts with an operator
    character: along every sequence of [append] of one character,
    [backspace], [clear] and [percent] from the empty buffer, the first
    character of the buffer is none of [÷ × + -].  (The text of a negative
    result of [evaluate] and the text [negate] writes do start with a minus
    sign.) *)
Theorem typed_buffer_head (rt : Runtime) (cmds : list command) :
  renders_cleanly rt ->
  forallb (fun cmd => negb (is_negate cmd || is_evaluate cmd)) cmds = true ->
  head_is_operator (expr (run rt cmds)) = false.
Proof.
  intros Hclean. unfold run.
  assert (H : forall self,
            forallb (fun cmd => negb (is_negate cmd || is_evaluate cmd)) cmds = true ->
            head_is_operator (expr self) = false ->
            head_is_operator (expr (List.fold_left (step rt) cmds self)) = false).
  { induction cmds as [|cmd cmds IH]; intros self Hc Hs; [exact Hs|].
    simpl in Hc. apply andb_true_iff in Hc as [Hcmd Hc].
    simpl. apply IH; [exact Hc|].
    destruct cmd; try discriminate; simpl.
    - now apply append_head.
    - now apply drop_last_head.
    - reflexivity.
    - now apply percent_head. }
  intros Hc. apply H; [exact Hc | reflexivity].
Qed.

Lemma typed_buffer_head_witness :
  head_is_operator
    (expr (run Example.runtime
             [Append 45; Append 53; Append 43; Backspace; Backspace; Append 215;
              Append 50; Append 53; Percent]))
  = false /\
  expr (run Example.runtime
          [Append 45; Append 53; Append 43; Backspace; Backspace; Append 215;
           Append 50; Append 53; Percent])
  = u "0.25".
Proof.
  split; [|vm_compute; reflexivity].
  apply (typed_buffer_head Example.runtime _ example_renders_cleanly).
  reflexivity.
Defined.

(** ** The failures of [safe_eval] *)




(** ** Integer arithmetic *)




(** ** Division by zero *)

Lemma int_to_float_zero : int_to_float 0 = Ok zero.
Proof. reflexivity. Qed.

Lemma zero_is_zero (v : value) (f : float) :
  is_zero_value v = true -> to_float v = Ok f -> is_zero f = true.
Proof.
  destruct v as [b|z|g|c]; simpl; intros Hz Hf; try discriminate.
  - destruct b; [discriminate|]. now inversion Hf.
  - apply Z.eqb_eq in Hz. subst z. now inversion Hf.
  - now inversion Hf; subst.
Qed.

Lemma divide_by_zero (rt : Runtime) (f : pyfunc) (vl vr : value) :
  f = operator_truediv \/ f = operator_floordiv \/ f = operator_mod ->
  is_complex_value vl = false -> is_zero_value vr = true ->
  call2 rt f vl vr = Raise ZeroDivisionError \/
  (call2 rt f vl vr = Raise OverflowError /\
   is_float_value vr = true /\
   exists z, as_int vl = Some z /\ is_inf (round_Z z) = true).
Proof.
  intros Hf Hl Hr.
  assert (Hcases :
    (exists a, coerce vl vr = Ok (IntInt a 0)) \/
    (exists x y, coerce vl vr = Ok (FloatFloat x y) /\ is_zero y = true) \/
    (coerce vl vr = Raise OverflowError /\ is_float_value vr = true /\
     exists z, as_int vl = Some z /\ is_inf (round_Z z) = true)).
  { destruct vr as [b|z|g|c]; simpl in Hr; try discriminate.
    - destruct b; [discriminate|].
      destruct vl as [a|a|a|a]; try discriminate; simpl.
      + left. eexists. reflexivity.
      + left. eexists. reflexivity.
      + right. left. exists a, zero. split; reflexivity.
    - apply Z.eqb_eq in Hr. subst z.
      destruct vl as [a|a|a|a]; try discriminate; simpl.
      + left. eexists. reflexivity.
      + left. eexists. reflexivity.
      + right. left. exists a, zero. split; reflexivity.
    - destruct vl as [a|a|a|a]; try discriminate; unfold coerce, to_float.
      + right. left. exists (round_Z (Z.b2z a)), g. split; [|exact Hr].
        destruct a; reflexivity.
      + unfold int_to_float. destruct (is_inf (round_Z a)) eqn:Hinf.
        * right. right. split; [reflexivity|]. split; [reflexivity|].
          exists a. auto.
        * right. left. exists (round_Z a), g. split; [reflexivity | exact Hr].
      + right. left. exists a, g. split; [reflexivity | exact Hr]. }
  destruct Hcases as [(a & Hc)|[(x & y & Hc & Hy)|(Hc & Hfl & Hz)]].
  - left. destruct Hf as [->|[->| ->]]; simpl;
      unfold py_truediv, py_floordiv, py_mod; rewrite Hc; reflexivity.
  - left. destruct Hf as [->|[->| ->]]; simpl;
      unfold py_truediv, py_floordiv, py_mod; rewrite Hc; simpl;
      unfold float_floor_div, float_rem; now rewrite Hy.
  - right. split; [|auto].
    destruct Hf as [->|[->| ->]]; simpl;
      unfold py_truediv, py_floordiv, py_mod; rewrite Hc; reflexivity.
Qed.

(** X13.  Division by zero never gives a value.  When the right operand
    of [/], [//] or [%] evaluates to a zero ([0], [False], [0.0] or
    [-0.0]) and the left operand to an [int], [bool] or [float], the
    operation fails with [ZeroDivisionError]; the one other outcome is an
    [OverflowError], when the zero is a float and the left operand is an
    [int] too large for a float. *)
Theorem division_by_zero_fails
  (rt : Runtime) (l r : node) (op : operator) (vl vr : value) :
  divides op = true ->
  _eval rt l = Ok vl -> _eval rt r = Ok vr ->
  is_complex_value vl = false -> is_zero_value vr = true ->
  _eval rt (BinOp l op r) = Raise ZeroDivisionError \/
  (_eval rt (BinOp l op r) = Raise OverflowError /\
   is_float_value vr = true /\
   exists z, as_int vl = Some z /\ is_inf (round_Z z) = true).
Proof.
  intros Hop Hl Hr Hc Hz.
  destruct op; try discriminate; cbn [_eval ALLOWED_OPERATORS];
    rewrite Hl, Hr; cbn [bind]; apply divide_by_zero; auto.
Qed.

Lemma division_by_zero_fails_witness :
  _eval Example.runtime
    (BinOp (Constant (KInt 9)) FloorDiv
           (BinOp (Constant (KFloat one)) Sub (Constant (KInt 1))))
  = Raise ZeroDivisionError.
Proof.
  destruct (division_by_zero_fails Example.runtime
              (Constant (KInt 9))
              (BinOp (Constant (KFloat one)) Sub (Constant (KInt 1)))
              FloorDiv (VInt 9) (VFloat (S754_zero false)))
    as [H|(_ & _ & z & Hz & Hinf)].
  - reflexivity.
  - reflexivity.
  - vm_compute. reflexivity.
  - reflexivity.
  - reflexivity.
  - exact H.
  - simpl in Hz. injection Hz as <-. vm_compute in Hinf. discriminate.
Defined.

(** ** Results of type [bool] *)

Lemma call2_not_bool (rt : Runtime) (f : pyfunc) (l r : value) (b : bool) :
  call2 rt f l r <> Ok (VBool b).
Proof.
  assert (Hcx : forall op x y, complex_op rt op x y <> Ok (VBool b)).
  { intros op x y. unfold complex_op.
    destruct (complex_binop rt op x y); discriminate. }
  assert (Hpow : forall x y, float_pow rt x y <> Ok (VBool b)).
  { intros x y. unfold float_pow.
    repeat match goal with
           | |- context [if ?c then _ else _] => destruct c
           end; try discriminate; apply Hcx. }
  destruct f; simpl; try discriminate;
    unfold py_add, py_sub, py_mul, py_truediv, py_mod, py_pow, py_floordiv;
    destruct (coerce l r) as [[x y|x y|x y]|e]; simpl; try discriminate;
    try apply Hcx; try apply Hpow.
  - destruct (Z.eqb y 0); [discriminate|]. destruct (is_inf _); discriminate.
  - destruct (is_zero y); discriminate.
  - destruct (Z.eqb y 0); discriminate.
  - unfold float_rem. destruct (is_zero y); [discriminate|].
    destruct (is_zero _); [discriminate|]. destruct (negb _); discriminate.
  - destruct (Z.ltb y 0); [|discriminate].
    destruct (int_to_float x); [|discriminate]. simpl.
    destruct (int_to_float y); [|discriminate]. simpl. apply Hpow.
  - destruct (Z.eqb y 0); discriminate.
  - unfold float_floor_div. destruct (is_zero y); [discriminate|].
    destruct (is_zero _); discriminate.
Qed.

Lemma call1_not_bool (f : pyfunc) (x : value) (b : bool) :
  call1 f x <> Ok (VBool b).
Proof.
  destruct f; simpl; try discriminate.
  - destruct x as [| | |[re im]]; discriminate.
  - destruct x; discriminate.
Qed.

(** X14.  No operation of the whitelist gives a [bool]: when [_eval]
    returns [True] or [False], the expression is that very constant. *)
Theorem bool_only_from_constant (rt : Runtime) (nd : node) (b : bool) :
  _eval rt nd = Ok (VBool b) -> body_of nd = Constant (KBool b).
Proof.
  induction nd as [body IH|k|l IHl op r IHr|op x IH|f args|id|name];
    intros H; try discriminate.
  - simpl in *. auto.
  - destruct k; try discriminate. simpl in H. now inversion H.
  - exfalso. cbn [_eval] in H.
    destruct (ALLOWED_OPERATORS (BinClass op)); [|discriminate].
    destruct (_eval rt l); [|discriminate].
    destruct (_eval rt r); [|discriminate].
    simpl in H. now apply call2_not_bool in H.
  - exfalso. cbn [_eval] in H.
    destruct (ALLOWED_OPERATORS (UnClass op)); [|discriminate].
    destruct (_eval rt x); [|discriminate].
    simpl in H. now apply call1_not_bool in H.
Qed.

Lemma bool_only_from_constant_witness :
  safe_eval Example.runtime (u "True") = Ok (VBool true) /\
  body_of (Expression (Constant (KBool true))) = Constant (KBool true).
Proof.
  split; [vm_compute; reflexivity|].
  apply (bool_only_from_constant Example.runtime). reflexivity.
Defined.

(** ** Percent *)

(** X15.  [percent] works on the maximal trailing run of digits, points
    and exponent markers, like [negate]: with an empty run, or one that
    [float()] rejects, it changes nothing; otherwise the run is replaced by
    the rendering of the hundredth of its value, which is never negative,
    the text before the run stays and the display is redrawn. *)
Theorem percent_trailing_number
  (rt : Runtime) (self : Calculator) (pre run : str) :
  expr self = pre ++ run -> trailing_run rt pre run ->
  (run = [] \/ float_of_text rt run = None -> percent rt self = self) /\
  (forall val, run <> [] -> float_of_text rt run = Some val ->
     expr (percent rt self) = pre ++ render rt (fdiv val hundred) /\
     sign_bit (fdiv val hundred) = Some false /\
     display_var (percent rt self) = display_text (expr (percent rt self))).
Proof.
  intros He Hrun. rewrite (percent_on_run rt self pre run He Hrun). split.
  - intros [->|H]; [reflexivity|]. rewrite H. now destruct run.
  - intros val Hne Hval. rewrite Hval.
    destruct run as [|c run]; [congruence|].
    split; [reflexivity|]. split; [|reflexivity].
    apply fdiv_hundred_sign. eapply float_of_text_sign. exact Hval.
Qed.

Lemma percent_trailing_number_witness :
  expr (percent Example.runtime (Example.with_buffer (u "12+5"))) = u "12+0.05" /\
  percent Example.runtime (Example.with_buffer (u "12+"))
  = Example.with_buffer (u "12+").
Proof.
  assert (Hrun : trailing_run Example.runtime (u "12+") (u "5")).
  { split.
    - repeat constructor.
    - intros pre' c H. apply (app_inj_tail (u "12") pre' 43 c) in H as [_ <-].
      rewrite <- in_number_iff. vm_compute. discriminate. }
  assert (Hnone : trailing_run Example.runtime (u "12+") []).
  { split; [constructor | exact (proj2 Hrun)]. }
  split.
  - destruct (percent_trailing_number Example.runtime
                (Example.with_buffer (u "12+5")) (u "12+") (u "5") eq_refl Hrun)
      as [_ H].
    destruct (H (round_Z 5) ltac:(discriminate) ltac:(vm_compute; reflexivity))
      as [H1 _].
    rewrite H1. vm_compute. reflexivity.
  - apply (percent_trailing_number Example.runtime
             (Example.with_buffer (u "12+")) (u "12+") [] eq_refl Hnone).
    now left.
Defined.

(** ** A number without digits *)

Lemma read_digits_stops (rt : Runtime) (c : char) (s : str) (acc : N) (count : nat) :
  c = 46 \/ c = 101 \/ c = 69 ->
  read_digits rt (c :: s) acc count = (acc, count, c :: s).
Proof. intros [->|[->| ->]]; reflexivity. Qed.

Lemma float_of_text_no_digit (rt : Runtime) (run : str) :
  Forall (fun c => c = 46 \/ c = 101 \/ c = 69) run ->
  float_of_text rt run = None.
Proof.
  intros Hrun. unfold float_of_text.
  destruct run as [|c run]; [reflexivity|].
  pose proof (Forall_inv Hrun) as Hc. pose proof (Forall_inv_tail Hrun) as Ht.
  rewrite (read_digits_stops rt c run 0 0 Hc).
  destruct Hc as [->|Hc].
  - destruct run as [|d run]; [reflexivity|].
    now rewrite (read_digits_stops rt d run 0 0 (Forall_inv Ht)).
  - destruct Hc as [->| ->]; reflexivity.
Qed.

(** X16.  When the trailing run holds no digit, only points and exponent
    markers, [negate] and [percent] leave the window as it is: [float()]
    rejects the run and the exception is swallowed. *)
Theorem number_without_digits_is_left_alone
  (rt : Runtime) (self : Calculator) (pre run : str) :
  expr self = pre ++ run -> trailing_run rt pre run ->
  Forall (fun c => c = 46 \/ c = 101 \/ c = 69) run ->
  negate rt self = self /\ percent rt self = self.
Proof.
  intros He Hrun Hno.
  rewrite (negate_on_run rt self pre run He Hrun).
  rewrite (percent_on_run rt self pre run He Hrun).
  rewrite (float_of_text_no_digit rt run Hno).
  now destruct run.
Qed.

Lemma number_without_digits_is_left_alone_witness :
  negate Example.runtime (Example.with_buffer (u "7+.")) = Example.with_buffer (u "7+.") /\
  percent Example.runtime (Example.with_buffer (u "7+.")) = Example.with_buffer (u "7+.").
Proof.
  apply (number_without_digits_is_left_alone Example.runtime
           (Example.with_buffer (u "7+.")) (u "7+") (u ".")).
  - reflexivity.
  - split.
    + constructor; [right; left; reflexivity | constructor].
    + intros pre' c H. apply (app_inj_tail (u "7") pre' 43 c) in H as [_ <-].
      rewrite <- in_number_iff. vm_compute. discriminate.
  - constructor; [left; reflexivity | constructor].
Defined.

(** ** Negating an integer *)

Section NegateInteger.
Local Open Scope Z_scope.

(** An integer below [2 ^ 53] is a float, and negating that float gives
    the negated integer. *)
Lemma round_Z_small (p : positive) :
  Zpos p < 2 ^ 53 ->
  is_integer (fneg (round_Z (Zpos p))) = true /\
  trunc (fneg (round_Z (Zpos p))) = Zneg p.
Proof.
  intros Hp. unfold round_Z, binary_normalize.
  destruct (binary_round_exact false p 0) as (m & e & H & He & Hm & _);
    [now apply digits2_pos_le_53 | lia | lia |].
  rewrite H. simpl fneg. unfold is_integer, trunc.
  destruct (Z.leb_spec 0 e) as [Hpos|Hneg].
  - replace e with 0 in * by lia. simpl in Hm. split; [reflexivity|].
    simpl. lia.
  - replace (0 - e) with (- e) in Hm by lia.
    assert (H2 : 0 < 2 ^ (- e)) by (apply Z.pow_pos_nonneg; lia).
    rewrite Hm, Z.mod_mul, Z.div_mul by lia.
    split; [reflexivity|]. simpl. lia.
Qed.

End NegateInteger.

(** X17.  On a buffer that ends in a run of ASCII digits denoting a
    number between 1 and [2 ^ 53 - 1], [negate] replaces the run by a
    minus sign and the decimal text of that very number, without leading
    zeros, and keeps what is before the run. *)
Theorem negate_integer_text
  (rt : Runtime) (self : Calculator) (pre ds : str) :
  expr self = pre ++ ds -> trailing_run rt pre ds ->
  Forall ascii_digit ds ->
  (0 < Z.of_N (digits_value ds) < 2 ^ 53)%Z ->
  expr (negate rt self) = pre ++ 45 :: str_int (Z.of_N (digits_value ds)).
Proof.
  intros He Hrun Hds Hval.
  assert (Hne : ds <> []) by (intros ->; simpl in Hval; lia).
  rewrite (negate_on_run rt self pre ds He Hrun), (float_of_digits rt ds Hne Hds).
  destruct ds as [|d ds]; [congruence|]. simpl expr. f_equal.
  destruct (Z.of_N (digits_value (d :: ds))) as [|p|p] eqn:E; try lia.
  destruct (round_Z_small p) as [Hi Ht]; [lia|].
  unfold render. rewrite Hi, Ht. reflexivity.
Qed.

Lemma negate_integer_text_witness :
  expr (negate Example.runtime (Example.with_buffer (u "3×0042"))) = u "3×-42".
Proof.
  assert (H : expr (negate Example.runtime (Example.with_buffer (u "3×0042")))
              = u "3×" ++ 45 :: str_int (Z.of_N (digits_value (u "0042")))).
  { apply (negate_integer_text Example.runtime
             (Example.with_buffer (u "3×0042")) (u "3×") (u "0042")).
    - reflexivity.
    - split.
      + repeat constructor.
      + intros pre' c H. apply (app_inj_tail (u "3") pre' 215 c) in H as [_ <-].
        rewrite <- in_number_iff. vm_compute. discriminate.
    - repeat constructor; vm_compute; discriminate.
    - vm_compute. split; reflexivity. }
  rewrite H. vm_compute. reflexivity.
Defined.

(** ** Evaluating twice *)





(** ** Keys and buttons *)

(** Every button that appends a character appends the character of its
    label, and no two buttons share a cell of the grid. *)
Example buttons_append_their_labels :
  forallb (fun b => match b with
                    | (label, _, _, Append c) => str_eqb label [c]
                    | _ => true
                    end) btn_specs = true /\
  NoDup (map (fun b => (snd (fst (fst b)), snd (fst b))) btn_specs) /\
  List.length btn_specs = 20%nat.
Proof.
  split; [vm_compute; reflexivity|]. split; [|reflexivity].
  unfold btn_specs. cbn [map fst snd].
  repeat (constructor; [cbn [In]; intuition discriminate|]). constructor.
Qed.

(** X19.  The keyboard does what the buttons do: a digit, the point, [+]
    and [-] act as the button of that label, [/] and [*] as the buttons
    [÷] and [×], Return and the keypad's Enter as [=], BackSpace as [⌫]
    and Escape as [C].  The one exception is [%]: the key appends the
    character [%] to the buffer, Python's remainder operator, and the
    button calls [percent]. *)
Theorem keys_match_buttons (rt : Runtime) (self : Calculator) :
  (forall c, In c (u "0123456789.+-") ->
     handle rt self (KeyEvent "<Key>" [c]) = handle rt self (Click [c])) /\
  handle rt self (KeyEvent "<Key>" (u "/")) = handle rt self (Click (u "÷")) /\
  handle rt self (KeyEvent "<Key>" (u "*")) = handle rt self (Click (u "×")) /\
  handle rt self (KeyEvent "<Key>" [13]) = handle rt self (Click (u "=")) /\
  handle rt self (KeyEvent "<Return>" [13]) = handle rt self (Click (u "=")) /\
  handle rt self (KeyEvent "<KP_Enter>" [13]) = handle rt self (Click (u "=")) /\
  handle rt self (KeyEvent "<BackSpace>" [8]) = handle rt self (Click (u "⌫")) /\
  handle rt self (KeyEvent "<Escape>" [27]) = handle rt self (Click (u "C")) /\
  handle rt self (KeyEvent "<Key>" (u "%")) = append self (u "%") /\
  handle rt self (Click (u "%")) = percent rt self.
Proof.
  split; [|repeat split].
  intros c Hc. change (u "0123456789.+-")
    with [48; 49; 50; 51; 52; 53; 54; 55; 56; 57; 46; 43; 45] in Hc.
  cbn [In] in Hc.
  repeat (destruct Hc as [<-|Hc]; [reflexivity|]). destruct Hc.
Qed.

Lemma keys_match_buttons_witness :
  handle Example.runtime (Example.with_buffer (u "12")) (KeyEvent "<Key>" (u "7"))
  = handle Example.runtime (Example.with_buffer (u "12")) (Click (u "7")) /\
  expr (handle Example.runtime (Example.with_buffer (u "12")) (KeyEvent "<Key>" (u "7")))
  = u "127".
Proof.
  split; [|vm_compute; reflexivity].
  apply (keys_match_buttons Example.runtime (Example.with_buffer (u "12"))).
  vm_compute. tauto.
Defined.

(** ** More sessions of the example runtime *)

Example negate_loses_digits_beyond_2_53 :
  expr (negate Example.runtime (Example.with_buffer (u "9007199254740993")))
  = u "-9007199254740992".
Proof. vm_compute. reflexivity. Qed.

Example keyboard_session :
  let w := window Example.runtime
             [KeyEvent "<Key>" (u "("); KeyEvent "<Key>" (u "7");
              KeyEvent "<Key>" (u "+"); KeyEvent "<Key>" (u "3");
              KeyEvent "<Key>" (u ")"); KeyEvent "<Key>" (u "%");
              KeyEvent "<Key>" (u "4"); KeyEvent "<Key>" (u "x");
              KeyEvent "<Return>" [13]] in
  expr w = u "2" /\ display_var w = u "2".
Proof. vm_compute. split; reflexivity. Qed.

Example modifier_key_removes_operator :
  expr (window Example.runtime
          [Click (u "7"); Click (u "+"); KeyEvent "<Key>" []]) = u "7".
Proof. vm_compute. reflexivity. Qed.

Example error_then_timer :
  let w := window Example.runtime
             [Click (u "9"); Click (u "÷"); Click (u "0"); Click (u "=")] in
  display_var w = u "Error" /\ expr w = u "9÷0" /\
  display_var (handle Example.runtime w Timer) = u "9÷0" /\
  after_queue (handle Example.runtime w Timer) = [].
Proof. vm_compute. repeat split. Qed.
